(** * useFirestore: cache-mode reads, read statistics, query constraints and
      audited mutations

    A shallow embedding of [src/utils.ts] and of the hooks of the package
    (document read, create, update and delete), with the properties of its
    specification stated over it.

    JavaScript objects used as field maps are [gmap string _]; the key/value
    storage behind the read statistics is a [gmap string string]; calls to
    the Firestore client and to the logger are steps of a state-and-error
    monad over an arbitrary backend, each step leaving an event in a trace. *)

From Stdlib Require Import ZArith NArith Ascii String List Lia.
From Stdlib Require Import DecimalString DecimalN.
From stdpp Require Import base option list gmap strings fin_maps.

Local Open Scope string_scope.
Local Open Scope list_scope.

(** ** JavaScript values *)

(** The numbers this code computes with.  [JInt n] is the non-negative
    integer [n], exact in a double up to [2^53]; [JNaN] is not-a-number.
    Every other double (fractions, negative numbers, infinities) is
    outside the model: the conversions that would produce one return
    [None]. *)
Inductive JSNumber : Type :=
  | JNaN
  | JInt (n : N).

Unset Elimination Schemes.
Inductive Value : Type :=
  | VUndefined
  | VNull
  | VBool (b : bool)
  | VNum (n : JSNumber)
  | VStr (s : string)
  | VServerTimestamp              (* the sentinel of serverTimestamp() *)
  | VDate (iso : string)          (* a Date object *)
  | VObj (fields : gmap string Value).
Set Elimination Schemes.

(** A document's data: field name to value. *)
Abbreviation Record := (gmap string Value).

(** ** Number(string) and String(number) *)

Module JS.

Definition max_safe : N := 9007199254740992.   (* 2^53 *)

Definition code (c : ascii) : nat := nat_of_ascii c.

Definition is_digit (c : ascii) : bool :=
  (48 <=? code c)%nat && (code c <=? 57)%nat.

(* TAB, LF, VT, FF, CR and SP: the StrWhiteSpaceChar below U+0080 *)
Definition is_ws (c : ascii) : bool :=
  ((9 <=? code c)%nat && (code c <=? 13)%nat) || (code c =? 32)%nat.

Definition is_ascii (c : ascii) : bool := (code c <? 128)%nat.

Definition is_hex (c : ascii) : bool :=
  is_digit c
  || ((97 <=? code c)%nat && (code c <=? 102)%nat)
  || ((65 <=? code c)%nat && (code c <=? 70)%nat).

Definition is_octal (c : ascii) : bool :=
  (48 <=? code c)%nat && (code c <=? 55)%nat.

Definition is_binary (c : ascii) : bool :=
  (code c =? 48)%nat || (code c =? 49)%nat.

Definition chars (s : string) : list ascii := list_ascii_of_string s.

Fixpoint drop_ws (l : list ascii) : list ascii :=
  match l with
  | c :: r => if is_ws c then drop_ws r else l
  | [] => []
  end.

Definition trim (l : list ascii) : list ascii :=
  rev (drop_ws (rev (drop_ws l))).

(* the longest prefix of decimal digits, and what follows it *)
Fixpoint span_digits (l : list ascii) : list ascii * list ascii :=
  match l with
  | c :: r =>
      if is_digit c
      then let '(ds, rest) := span_digits r in (c :: ds, rest)
      else ([], l)
  | [] => ([], [])
  end.

Definition nonempty {A} (l : list A) : bool :=
  match l with [] => false | _ :: _ => true end.

Definition is_nil {A} (l : list A) : bool := negb (nonempty l).

Definition eqc (c : ascii) (s : string) : bool :=
  match s with
  | String d EmptyString => Ascii.eqb c d
  | _ => false
  end.

(* ExponentPart, optional, up to the end of the literal *)
Definition exponent_opt (l : list ascii) : bool :=
  match l with
  | [] => true
  | c :: r =>
      (eqc c "e" || eqc c "E")
      && (let r' := match r with
                    | s :: r2 => if eqc s "+" || eqc s "-" then r2 else r
                    | [] => r
                    end in
          let '(ds, rest) := span_digits r' in nonempty ds && is_nil rest)
  end.

(* StrUnsignedDecimalLiteral *)
Definition unsigned_decimal (l : list ascii) : bool :=
  if decide (l = chars "Infinity") then true else
  let '(ds, rest) := span_digits l in
  match rest with
  | [] => nonempty ds
  | c :: r =>
      if eqc c "."
      then let '(fs, rest2) := span_digits r in
           (nonempty ds || nonempty fs) && exponent_opt rest2
      else nonempty ds && exponent_opt rest
  end.

(* StrDecimalLiteral: an optional sign, then the unsigned literal *)
Definition decimal_literal (l : list ascii) : bool :=
  match l with
  | c :: r => if eqc c "+" || eqc c "-" then unsigned_decimal r
              else unsigned_decimal l
  | [] => false
  end.

(* NonDecimalIntegerLiteral: 0x, 0o and 0b with at least one digit *)
Definition non_decimal_literal (l : list ascii) : bool :=
  match l with
  | z :: p :: r =>
      eqc z "0" && nonempty r
      && (((eqc p "x" || eqc p "X") && forallb is_hex r)
          || ((eqc p "o" || eqc p "O") && forallb is_octal r)
          || ((eqc p "b" || eqc p "B") && forallb is_binary r))
  | _ => false
  end.

Definition numeric_literal (l : list ascii) : bool :=
  decimal_literal l || non_decimal_literal l.

(* the value of a run of decimal digits; [None] for anything else *)
Definition digits_value (l : list ascii) : option N :=
  N.of_uint <$> NilEmpty.uint_of_string (string_of_list_ascii l).

(** [Number(s)] for a string of characters below U+0080.  The empty
    or blank string is 0; a run of decimal digits is its value when a
    double holds it exactly; a string that is no StringNumericLiteral
    is NaN.  The remaining literals (signed, fractional, with an
    exponent, hexadecimal, Infinity, or above [2^53]) denote doubles
    outside [JSNumber] and give [None], as does a string with a
    character from U+0080 on. *)
Definition Number (s : string) : option JSNumber :=
  let l := chars s in
  if negb (forallb is_ascii l) then None else
  let t := trim l in
  if is_nil t then Some (JInt 0) else
  match digits_value t with
  | Some n => if (n <=? max_safe)%N then Some (JInt n) else None
  | None => if numeric_literal t then None else Some JNaN
  end.

(** [count + 1] in double arithmetic: exact below [2^53], where the
    sum rounds back to [2^53] (ties to even); NaN is absorbing. *)
Definition add1 (x : JSNumber) : JSNumber :=
  match x with
  | JNaN => JNaN
  | JInt n => if (n <? max_safe)%N then JInt (n + 1) else JInt n
  end.

(** [String(x)]: the decimal digits of an integer, or "NaN". *)
Definition String (x : JSNumber) : string :=
  match x with
  | JNaN => "NaN"
  | JInt n => NilZero.string_of_uint (N.to_uint n)
  end.

End JS.

(** ** The key/value storage ([StorageLike]) *)

(** A storage state maps keys to strings.  [key] enumerates the keys in
    the order of the storage, which is its own business (for
    [localStorage] the order is left to the user agent). *)
Abbreviation Storage := (gmap string string).

Definition getItem (st : Storage) (k : string) : option string := st !! k.
Definition setItem (k v : string) (st : Storage) : Storage := <[k:=v]> st.
Definition removeItem (k : string) (st : Storage) : Storage := delete k st.
Definition storage_length (st : Storage) : nat := size st.
Definition stored_keys (st : Storage) : list string := (map_to_list st).*1.
Definition key (st : Storage) (i : nat) : option string := stored_keys st !! i.

(** ** Read statistics ([utils.ts]) *)

Definition readCountPrefix : string := "@romyapps:readCount::".
Definition lastFetchedPrefix : string := "@romyapps:lastFetched::".

Definition readCountKey (collectionName : string) : string :=
  readCountPrefix +:+ collectionName.
Definition lastFetchedKey (collectionName : string) : string :=
  lastFetchedPrefix +:+ collectionName.

Record ReadStats := { updated : JSNumber }.

(** [recordReadStats(storage, collectionName)]; [now] is what
    [new Date().toISOString()] gives at the call.  The result is the
    storage afterwards and the returned object ([None] for [undefined]);
    the whole is [None] when the stored count is a number outside
    [JSNumber]. *)
Definition recordReadStats (now : string) (storage : option Storage)
    (collectionName : string) : option (option Storage * option ReadStats) :=
  match storage with
  | None => Some (None, None)
  | Some st =>
      let key := readCountKey collectionName in
      let lastFetchedKey := lastFetchedKey collectionName in
      count ← JS.Number (default "0" (getItem st key));
      let updated := JS.add1 count in
      let st := setItem key (JS.String updated) st in
      let st := setItem lastFetchedKey now st in
      Some (Some st, Some {| updated := updated |})
  end.

(** The count the specification has [recordRead] start from: 0 when
    nothing is stored and 0 when what is stored is not numeric. *)
Definition spec_stored_count (stored : option string) : option JSNumber :=
  match stored with
  | None => Some (JInt 0)
  | Some s => match JS.Number s with
              | Some JNaN => Some (JInt 0)
              | r => r
              end
  end.

Definition spec_recordRead (now : string) (st : Storage) (collectionName : string)
    : option (Storage * JSNumber) :=
  count ← spec_stored_count (getItem st (readCountKey collectionName));
  let updated := JS.add1 count in
  Some (setItem (lastFetchedKey collectionName) now
          (setItem (readCountKey collectionName) (JS.String updated) st),
        updated).

(** The count the code starts from: 0 when nothing is stored, else
    whatever number the stored string converts to. *)
Definition stored_count (st : Storage) (collectionName : string) : option JSNumber :=
  match getItem st (readCountKey collectionName) with
  | None => Some (JInt 0)
  | Some s => JS.Number s
  end.

Record CollectionStats := { readCount : JSNumber; lastFetched : option string }.

Definition getCollectionStats (storage : option Storage)
    (collectionName : string) : option CollectionStats :=
  match storage with
  | None => Some {| readCount := JInt 0; lastFetched := None |}
  | Some st =>
      readCount ← JS.Number (default "0" (getItem st (readCountKey collectionName)));
      let lastFetched := getItem st (lastFetchedKey collectionName) in
      Some {| readCount := readCount; lastFetched := lastFetched |}
  end.

Definition clearCollectionStats (storage : option Storage)
    (collectionName : string) : option Storage :=
  match storage with
  | None => None
  | Some st =>
      let st := removeItem (readCountKey collectionName) st in
      let st := removeItem (lastFetchedKey collectionName) st in
      Some st
  end.

Definition startsWith (k prefix : string) : bool := String.prefix prefix k.

Definition is_stats_key (k : string) : bool :=
  startsWith k readCountPrefix || startsWith k lastFetchedPrefix.

(* one turn of the loop over the indices *)
Definition collect_key (st : Storage) (toRemove : list string) (i : nat)
    : list string :=
  match key st i with
  | None | Some EmptyString => toRemove        (* if (!k) continue *)
  | Some k => if is_stats_key k then toRemove ++ [k] else toRemove
  end.

Record ClearResult := { removed : nat }.

Definition clearAllCollectionStats (storage : option Storage)
    : option Storage * ClearResult :=
  match storage with
  | None => (None, {| removed := 0 |})
  | Some st =>
      let toRemove := foldl (collect_key st) [] (seq 0 (storage_length st)) in
      let st' := foldl (fun s k => removeItem k s) st toRemove in
      (Some st', {| removed := length toRemove |})
  end.

Definition defaultResolveLogCollection (name : string) : string :=
  name +:+ "_log".

(** ** Query constraints ([buildConstraints]) *)

(** A thrown value. *)
Inductive JsError := Error (message : string).

Inductive WhereFilterOp :=
  | OpLt | OpLe | OpEq | OpNe | OpGe | OpGt
  | OpArrayContains | OpIn | OpArrayContainsAny | OpNotIn.

Inductive Direction := Asc | Desc.

Record WhereClause := { w_field : string; w_operator : WhereFilterOp; w_value : Value }.
Record OrderByClause := { o_field : string; o_direction : option Direction }.

(** A document snapshot: its id and, when the document exists, its data. *)
Record DocumentSnapshot := { snap_id : string; snap_data : option Record }.

Definition snap_exists (s : DocumentSnapshot) : bool :=
  match snap_data s with Some _ => true | None => false end.

Inductive CursorType := After | Before.
Record CursorConfig := { c_type : CursorType; c_doc : option DocumentSnapshot }.

Record CollectionOptions := {
  opt_where : option (list WhereClause);
  opt_orderBy : option (list OrderByClause);
  opt_limit : option JSNumber;
  opt_cursor : option CursorConfig
}.

Inductive QueryConstraint :=
  | QWhere (field : string) (op : WhereFilterOp) (value : Value)
  | QOrderBy (field : string) (direction : Direction)
  | QLimit (n : JSNumber)
  | QStartAfter (doc : DocumentSnapshot)
  | QEndBefore (doc : DocumentSnapshot).

(** The constraint constructors of the client ([where], [orderBy],
    [limit], [startAfter] and [endBefore] of firebase/firestore) check
    their arguments and throw on the ones they refuse.  The client is not
    among the sources: which arguments a constructor refuses, and what it
    throws then, is a parameter. *)
Record Constructors := {
  where_refuses : string -> WhereFilterOp -> Value -> option JsError;
  orderBy_refuses : string -> Direction -> option JsError;
  limit_refuses : JSNumber -> option JsError;
  startAfter_refuses : DocumentSnapshot -> option JsError;
  endBefore_refuses : DocumentSnapshot -> option JsError
}.

Section Builder.

Context (fs : Constructors).

(* a constructor: it throws, or gives the constraint *)
Definition construct (refused : option JsError) (c : QueryConstraint)
    : JsError + QueryConstraint :=
  match refused with
  | Some e => inl e
  | None => inr c
  end.

Definition where_ (field : string) (op : WhereFilterOp) (value : Value)
    : JsError + QueryConstraint :=
  construct (where_refuses fs field op value) (QWhere field op value).

Definition orderBy (field : string) (direction : Direction)
    : JsError + QueryConstraint :=
  construct (orderBy_refuses fs field direction) (QOrderBy field direction).

Definition limit (n : JSNumber) : JsError + QueryConstraint :=
  construct (limit_refuses fs n) (QLimit n).

Definition startAfter (d : DocumentSnapshot) : JsError + QueryConstraint :=
  construct (startAfter_refuses fs d) (QStartAfter d).

Definition endBefore (d : DocumentSnapshot) : JsError + QueryConstraint :=
  construct (endBefore_refuses fs d) (QEndBefore d).

(* constraints.push(make(x)): the constructor runs first, and a throw
   leaves the function *)
Definition push (made : JsError + QueryConstraint)
    (constraints : list QueryConstraint) : JsError + list QueryConstraint :=
  match made with
  | inl e => inl e
  | inr c => inr (constraints ++ [c])
  end.

(* for (const x of xs) constraints.push(make(x)) *)
Fixpoint push_each {A} (make : A -> JsError + QueryConstraint) (xs : list A)
    (constraints : list QueryConstraint) : JsError + list QueryConstraint :=
  match xs with
  | [] => inr constraints
  | x :: rest =>
      match push (make x) constraints with
      | inl e => inl e
      | inr constraints => push_each make rest constraints
      end
  end.

(* the statements of the function one after the other *)
Definition and_then {A B} (r : JsError + A) (k : A -> JsError + B) : JsError + B :=
  match r with
  | inl e => inl e
  | inr a => k a
  end.

Definition buildConstraints (opts : option CollectionOptions)
    : JsError + list QueryConstraint :=
  let constraints : list QueryConstraint := [] in
  match opts with
  | None => inr constraints
  | Some opts =>
      and_then
        match opt_where opts with
        | Some wh =>
            push_each (fun clause =>
                         where_ (w_field clause) (w_operator clause) (w_value clause))
                      wh constraints
        | None => inr constraints
        end (fun constraints =>
      and_then
        match opt_orderBy opts with
        | Some obs =>
            push_each (fun o => orderBy (o_field o) (default Asc (o_direction o)))
                      obs constraints
        | None => inr constraints
        end (fun constraints =>
      and_then
        match opt_limit opts with
        | Some n => push (limit n) constraints
        | None => inr constraints
        end (fun constraints =>
      and_then
        match opt_cursor opts with
        | Some {| c_type := After; c_doc := Some d |} => push (startAfter d) constraints
        | _ => inr constraints
        end (fun constraints =>
      and_then
        match opt_cursor opts with
        | Some {| c_type := Before; c_doc := Some d |} => push (endBefore d) constraints
        | _ => inr constraints
        end (fun constraints =>
      inr constraints)))))
  end.

End Builder.

(** The four groups of the specification, each as a function of the
    descriptor. *)
Definition filter_constraints (opts : CollectionOptions) : list QueryConstraint :=
  map (fun c => QWhere (w_field c) (w_operator c) (w_value c))
      (default [] (opt_where opts)).

Definition sort_constraints (opts : CollectionOptions) : list QueryConstraint :=
  map (fun o => QOrderBy (o_field o)
                  (match o_direction o with Some d => d | None => Asc end))
      (default [] (opt_orderBy opts)).

Definition limit_constraint (opts : CollectionOptions) : list QueryConstraint :=
  match opt_limit opts with
  | Some n => [QLimit n]
  | None => []
  end.

Definition cursor_constraint (opts : CollectionOptions) : list QueryConstraint :=
  match opt_cursor opts with
  | None => []
  | Some c =>
      match c_doc c with
      | None => []
      | Some d => [match c_type c with
                   | After => QStartAfter d
                   | Before => QEndBefore d
                   end]
      end
  end.

(** The sequence of a descriptor: the four groups in their order, and
    nothing without a descriptor. *)
Definition constraints_of (opts : option CollectionOptions) : list QueryConstraint :=
  match opts with
  | None => []
  | Some opts =>
      filter_constraints opts ++ sort_constraints opts
      ++ limit_constraint opts ++ cursor_constraint opts
  end.

(** What the constructor of a constraint throws, if it refuses it, and the
    first throw along a sequence of constraints. *)
Definition refusal (fs : Constructors) (c : QueryConstraint) : option JsError :=
  match c with
  | QWhere field op value => where_refuses fs field op value
  | QOrderBy field direction => orderBy_refuses fs field direction
  | QLimit n => limit_refuses fs n
  | QStartAfter d => startAfter_refuses fs d
  | QEndBefore d => endBefore_refuses fs d
  end.

Fixpoint first_refusal (fs : Constructors) (cs : list QueryConstraint)
    : option JsError :=
  match cs with
  | [] => None
  | c :: rest =>
      match refusal fs c with
      | Some e => Some e
      | None => first_refusal fs rest
      end
  end.

(** The constructors as the reference of firebase/firestore has them:
    limit() requires a positive number; where() and orderBy() require a
    field path that is not empty, has no empty segment between dots and
    none of the characters ~ * / [ ]; startAfter() and endBefore() take
    any snapshot.  The messages are shortened. *)
Module Firebase.

Definition reserved (a : ascii) : bool :=
  existsb (Ascii.eqb a) (list_ascii_of_string "~*/[]").

(* the segments between dots are not empty; [fresh] says that the segment
   being read has no character yet *)
Fixpoint segments_ok (fresh : bool) (path : list ascii) : bool :=
  match path with
  | [] => negb fresh
  | a :: rest =>
      if Ascii.eqb a "."%char
      then negb fresh && segments_ok true rest
      else segments_ok false rest
  end.

Definition field_path_refused (path : string) : option JsError :=
  let chars := list_ascii_of_string path in
  if existsb reserved chars
  then Some (Error "Invalid field path: paths must not contain '~', '*', '/', '[', or ']'")
  else if segments_ok true chars
       then None
       else Some (Error "Invalid field path: paths must not be empty, begin with '.', end with '.', or contain '..'").

Definition limit_refused (n : JSNumber) : option JsError :=
  match n with
  | JInt 0 => Some (Error "Function limit() requires a positive number, but it was: 0.")
  | _ => None
  end.

Definition constructors : Constructors :=
  {| where_refuses := fun field _ _ => field_path_refused field;
     orderBy_refuses := fun field _ => field_path_refused field;
     limit_refuses := limit_refused;
     startAfter_refuses := fun _ => None;
     endBefore_refuses := fun _ => None |}.

End Firebase.

(** ** The Firestore client, the clocks and the logger *)

Record DocRef := { ref_collection : string; ref_id : string }.

Record QueryDocumentSnapshot := { qd_id : string; qd_data : Record }.
Record QuerySnapshot := { docs : list QueryDocumentSnapshot }.

Definition qs_empty (snap : QuerySnapshot) : bool := JS.is_nil (docs snap).

Record Query := { q_collection : string; q_constraints : list QueryConstraint }.

(** Which of the three read functions of the client is called: the
    [...FromCache] one, the [...FromServer] one, or the plain one that
    lets the SDK decide. *)
Inductive Source := FromCache | FromServer | Combined.

Inductive PreferCacheMode := DefaultMode | CacheFirst | CacheOnly | ServerOnly.

Inductive Level := Debug | Warn | ErrorLevel.

(** A logged message is a template literal, kept in parts: text, an
    interpolated value, an elapsed time printed with [toFixed(2)]. *)
Inductive Part :=
  | Txt (s : string)
  | Interp (v : Value)
  | Fixed2 (ms : Z).

Definition dq : string := String (ascii_of_nat 34) EmptyString.
Definition quoted (s : string) : Part := Txt (dq +:+ s +:+ dq).

Inductive LogArg :=
  | NoArg
  | ErrArg (e : JsError)
  | DataArg (payload : Record).

(** What a run leaves behind: every call to the store with its outcome
    ([inl] a rejection, [inr] the value), and every call to the logger. *)
Inductive Event :=
  | EGetDocs (src : Source) (q : Query) (r : JsError + QuerySnapshot)
  | EGetDoc (src : Source) (ref : DocRef) (r : JsError + DocumentSnapshot)
  | EAddDoc (col : string) (payload : Record) (r : JsError + DocRef)
  | EUpdateDoc (ref : DocRef) (payload : Record) (r : JsError + unit)
  | EDeleteDoc (ref : DocRef) (r : JsError + unit)
  | ELog (level : Level) (msg : list Part) (arg : LogArg).

(** The environment of the hooks: the Firestore client over a state [St]
    of its own (cache, server, network, anything), [doc] which builds a
    reference or throws, and the two clocks. *)
Record Backend (St : Type) := {
  be_getDocs : Source -> Query -> St -> (JsError + QuerySnapshot) * St;
  be_getDoc : Source -> DocRef -> St -> (JsError + DocumentSnapshot) * St;
  be_addDoc : string -> Record -> St -> (JsError + DocRef) * St;
  be_updateDoc : DocRef -> Record -> St -> (JsError + unit) * St;
  be_deleteDoc : DocRef -> St -> (JsError + unit) * St;
  be_doc : string -> Value -> JsError + DocRef;
  be_newDate : St -> string * St;
  be_performanceNow : St -> Z * St
}.
Arguments be_getDocs {St}.
Arguments be_getDoc {St}.
Arguments be_addDoc {St}.
Arguments be_updateDoc {St}.
Arguments be_deleteDoc {St}.
Arguments be_doc {St}.
Arguments be_newDate {St}.
Arguments be_performanceNow {St}.

Record World (St : Type) := { store : St; trace : list Event }.
Arguments store {St}.
Arguments trace {St}.

(** An async function: it runs in a world and either throws or returns. *)
Definition M (St A : Type) : Type := World St -> (JsError + A) * World St.

Definition ret {St A} (a : A) : M St A := fun w => (inr a, w).
Definition throw {St A} (e : JsError) : M St A := fun w => (inl e, w).

Definition bind {St A B} (m : M St A) (k : A -> M St B) : M St B :=
  fun w => match m w with
           | (inr a, w') => k a w'
           | (inl e, w') => (inl e, w')
           end.

(** try { body } catch (e) { handler e } *)
Definition try_catch {St A} (body : M St A) (handler : JsError -> M St A)
    : M St A :=
  fun w => match body w with
           | (inr a, w') => (inr a, w')
           | (inl e, w') => handler e w'
           end.

(** A synchronous callback that returns or throws. *)
Definition call {St A} (r : JsError + A) : M St A := fun w => (r, w).

Declare Scope js_scope.
Delimit Scope js_scope with js.
Notation "x <- m ;; k" := (bind m (fun x => k))
  (at level 100, m at next level, right associativity) : js_scope.
Notation "m ;;; k" := (bind m (fun _ => k))
  (at level 100, right associativity) : js_scope.
Local Open Scope js_scope.

Definition emit {St} (ev : Event) (w : World St) : World St :=
  {| store := store w; trace := trace w ++ [ev] |}.

(** The configuration handed to the provider.  The callbacks are
    synchronous functions that return or throw; a logger is described by
    the methods it has. *)
Record Logger := { lg_debug : bool; lg_warn : bool; lg_error : bool }.

Record LoggingConfig := {
  resolveLogCollection : option (string -> JsError + string);
  includePreviousData : bool
}.

Record UseFirebaseConfig := {
  getUserId : option (JsError + option string);
  logger : option Logger;
  keyPrefix : option string;
  default_enabled : option bool;      (* defaultQueryOptions.enabled *)
  logging : option LoggingConfig
}.


Definition has_level (cfg : UseFirebaseConfig) (lvl : Level) : bool :=
  match logger cfg with
  | None => false
  | Some lg => match lvl with
               | Debug => lg_debug lg
               | Warn => lg_warn lg
               | ErrorLevel => lg_error lg
               end
  end.

Definition nowServerTimestamp : Value := VServerTimestamp.

(** { id: id, ...data }: the fields of [data], and [id] unless [data]
    has an [id] of its own. *)
Definition with_id (id : string) (data : Record) : Record :=
  data ∪ {[ "id" := VStr id ]}.

Definition convertQuerySnapshot (snapshot : QuerySnapshot) : list Record :=
  map (fun doc => with_id (qd_id doc) (qd_data doc)) (docs snapshot).

Definition convertDocSnapshot (snapshot : DocumentSnapshot) : option Record :=
  match snap_data snapshot with
  | None => None
  | Some data => Some (with_id (snap_id snapshot) data)
  end.

(** [!x] for a string that may be null or undefined. *)
Definition falsy (x : option string) : bool :=
  match x with
  | None | Some EmptyString => true
  | Some _ => false
  end.

Definition of_nullable (x : option string) : Value :=
  match x with
  | None => VNull
  | Some s => VStr s
  end.

Definition get (o : Record) (k : string) : Value := default VUndefined (o !! k).

Record QueryBehavior := {
  preferCache : option PreferCacheMode;
  debug : option bool;
  rq_enabled : option bool            (* an [enabled] among the query options *)
}.

(** What the query observer reports. *)
Inductive QueryResult (A : Type) :=
  | NotFetched                       (* disabled: idle, data undefined *)
  | Success (data : A)
  | Failure (error : JsError).
Arguments NotFetched {A}.
Arguments Success {A}.
Arguments Failure {A}.

(** Reading a trace. *)
Definition is_server_read (ev : Event) : bool :=
  match ev with
  | EGetDocs FromServer _ _ | EGetDoc FromServer _ _ => true
  | _ => false
  end.

Definition is_store_call (ev : Event) : bool :=
  match ev with
  | ELog _ _ _ => false
  | _ => true
  end.

Definition server_reads (tr : list Event) : nat :=
  length (List.filter is_server_read tr).

Definition store_calls (tr : list Event) : list Event :=
  List.filter is_store_call tr.

(** The events a run from [w] to [w'] has added. *)
Definition events_since {St} (w w' : World St) : list Event :=
  drop (length (trace w)) (trace w').

(** A cache read that lets cache-first stop: it succeeded and is not
    empty (a collection), or it succeeded and the document exists. *)
Definition docs_hit (r : JsError + QuerySnapshot) : bool :=
  match r with
  | inr snap => negb (qs_empty snap)
  | inl _ => false
  end.

Definition doc_hit (r : JsError + DocumentSnapshot) : bool :=
  match r with
  | inr snap => snap_exists snap
  | inl _ => false
  end.

(** A beforeSave is the caller's function: handed an object, it throws or
    returns an object, and it can change the object it was handed in place.
    A call that returns gives the object returned and the object handed
    over as the call left it. *)
Record Saved := { returned_value : Record; argument_after : Record }.

Abbreviation BeforeSave := (Record -> JsError + Saved).

(** Per-call options of the hooks. *)
Record AddOptions := {
  add_invalidate : option bool;
  add_enableLogging : option bool;
  add_debug : option bool;
  add_beforeSave : option BeforeSave
}.

Record UpdateOptions := {
  upd_enableLogging : option bool;
  upd_debug : option bool;
  upd_beforeSave : option BeforeSave
}.

Record DeleteOptions := {
  del_enableLogging : option bool;
  del_debug : option bool
}.

Section Hooks.

Context {St : Type} (be : Backend St).

(** *** Calls to the client *)

Definition getDocsFrom (src : Source) (q : Query) : M St QuerySnapshot :=
  fun w => let '(r, s) := be_getDocs be src q (store w) in
           (r, emit (EGetDocs src q r) {| store := s; trace := trace w |}).

Definition getDocFrom (src : Source) (ref : DocRef) : M St DocumentSnapshot :=
  fun w => let '(r, s) := be_getDoc be src ref (store w) in
           (r, emit (EGetDoc src ref r) {| store := s; trace := trace w |}).

Definition getDocs := getDocsFrom Combined.
Definition getDocsFromCache := getDocsFrom FromCache.
Definition getDocsFromServer := getDocsFrom FromServer.
Definition getDoc := getDocFrom Combined.
Definition getDocFromCache := getDocFrom FromCache.
Definition getDocFromServer := getDocFrom FromServer.

Definition addDoc (col : string) (payload : Record) : M St DocRef :=
  fun w => let '(r, s) := be_addDoc be col payload (store w) in
           (r, emit (EAddDoc col payload r) {| store := s; trace := trace w |}).

Definition updateDoc (ref : DocRef) (payload : Record) : M St unit :=
  fun w => let '(r, s) := be_updateDoc be ref payload (store w) in
           (r, emit (EUpdateDoc ref payload r) {| store := s; trace := trace w |}).

Definition deleteDoc (ref : DocRef) : M St unit :=
  fun w => let '(r, s) := be_deleteDoc be ref (store w) in
           (r, emit (EDeleteDoc ref r) {| store := s; trace := trace w |}).

Definition doc (col : string) (id : Value) : M St DocRef :=
  call (be_doc be col id).

Definition newDate : M St Value :=
  fun w => let '(d, s) := be_newDate be (store w) in
           (inr (VDate d), {| store := s; trace := trace w |}).

Definition performanceNow : M St Z :=
  fun w => let '(t, s) := be_performanceNow be (store w) in
           (inr t, {| store := s; trace := trace w |}).

(** cfg.logger?.level?.(msg, arg): nothing happens without the method. *)
Definition log (cfg : UseFirebaseConfig) (lvl : Level) (msg : list Part)
    (arg : LogArg) : M St unit :=
  fun w => (inr tt, if has_level cfg lvl then emit (ELog lvl msg arg) w else w).

Definition when (b : bool) (m : M St unit) : M St unit :=
  if b then m else ret tt.

(** *** Cache modes ([utils.ts]) *)

Definition getDocsByMode (q : Query) (mode : PreferCacheMode)
    : M St QuerySnapshot :=
  match mode with
  | CacheOnly => getDocsFromCache q
  | ServerOnly => getDocsFromServer q
  | CacheFirst =>
      (* the try block returns [Some snap] or falls through *)
      returned <- try_catch
                    (snap <- getDocsFromCache q ;;
                     if negb (qs_empty snap) then ret (Some snap) else ret None)
                    (fun _ => ret None) ;;
      match returned with
      | Some snap => ret snap
      | None => getDocsFromServer q
      end
  | DefaultMode => getDocs q
  end.

Definition getDocByMode (ref : DocRef) (mode : PreferCacheMode)
    : M St DocumentSnapshot :=
  match mode with
  | CacheOnly => getDocFromCache ref
  | ServerOnly => getDocFromServer ref
  | CacheFirst =>
      returned <- try_catch
                    (snap <- getDocFromCache ref ;;
                     if snap_exists snap then ret (Some snap) else ret None)
                    (fun _ => ret None) ;;
      match returned with
      | Some snap => ret snap
      | None => getDocFromServer ref
      end
  | DefaultMode => getDoc ref
  end.

(** *** useDocument *)

Definition useDocument_queryFn (cfg : UseFirebaseConfig)
    (collectionName : string) (documentId : option string)
    (behavior : option QueryBehavior) : M St (option Record) :=
  let debug := default false (behavior ≫= debug) in
  let preferCache := default DefaultMode (behavior ≫= preferCache) in
  match documentId with
  | None | Some EmptyString => ret None           (* if (!documentId) return null *)
  | Some documentId =>
      start <- performanceNow ;;
      ref <- doc collectionName (VStr documentId) ;;
      snapshot <- getDocByMode ref preferCache ;;
      end_ <- performanceNow ;;
      when debug
        (log cfg Debug
             [Txt "📄 "; Txt collectionName; Txt "/"; Txt documentId;
              Txt " in "; Fixed2 (end_ - start); Txt "ms"]
             NoArg) ;;;
      ret (convertDocSnapshot snapshot)
  end.

(** The part of react-query's [useQuery] the hooks rely on, as its
    documentation has it: a query that is not [enabled] is not run; an
    enabled one runs [queryFn] (no retry: the hooks pass retry: false)
    and reports its value or its error. *)
Definition useQuery {A} (enabled : bool) (queryFn : M St A)
    : M St (QueryResult A) :=
  if enabled
  then try_catch (data <- queryFn ;; ret (Success data))
                 (fun e => ret (Failure e))
  else ret NotFetched.

Definition useDocument (cfg : UseFirebaseConfig) (collectionName : string)
    (documentId : option string) (behavior : option QueryBehavior)
    : M St (QueryResult (option Record)) :=
  (* enabled: !!documentId, then ...cfg.defaultQueryOptions, ...rqOptions *)
  let enabled := negb (falsy documentId) in
  let enabled := default enabled (default_enabled cfg) in
  let enabled := default enabled (behavior ≫= rq_enabled) in
  useQuery enabled (useDocument_queryFn cfg collectionName documentId behavior).

(** *** The mutations *)

(** cfg.logging?.resolveLogCollection?.(name) ?? defaultResolveLogCollection(name) *)
Definition resolveLog (cfg : UseFirebaseConfig) (collectionName : string)
    : M St string :=
  match logging cfg ≫= resolveLogCollection with
  | Some resolve => call (resolve collectionName)
  | None => ret (defaultResolveLogCollection collectionName)
  end.

(** cfg.getUserId?.() ?? null *)
Definition currentUserId (cfg : UseFirebaseConfig) : M St (option string) :=
  match getUserId cfg with
  | Some outcome => call outcome
  | None => ret None
  end.

Definition useAddDocument_mutationFn (cfg : UseFirebaseConfig)
    (collectionName : string) (opts : option AddOptions) (data : Record)
    : M St Record :=
  let enableLogging := default false (opts ≫= add_enableLogging) in
  let debug := default false (opts ≫= add_debug) in
  let beforeSave := opts ≫= add_beforeSave in
  let now := nowServerTimestamp in
  saved <- match beforeSave with
           | Some f => call (f data)
           | None => ret {| returned_value := data; argument_after := data |}
           end ;;
  let base := returned_value saved in
  (* [data] is the caller's object: from here on, as beforeSave left it *)
  let data := argument_after saved in
  let payload := <["updatedAt" := now]> (<["createdAt" := now]> base) in
  when debug
    (log cfg Debug [Txt "📝 add "; quoted collectionName] (DataArg payload)) ;;;
  ref <- addDoc collectionName payload ;;
  let result := with_id (ref_id ref) data in
  when enableLogging
    (try_catch
       (userId <- currentUserId cfg ;;
        when (falsy userId)
          (log cfg Warn [Txt "⚠️ logging enabled but no user id"] NoArg) ;;;
        logCol <- resolveLog cfg collectionName ;;
        modifiedOn <- newDate ;;
        _ <- addDoc logCol
               (<["timestamp" := now]>
               (<["modifiedOn" := modifiedOn]>
               (<["modifiedBy" := of_nullable userId]>
               (<["action" := VStr "CREATE"]>
               (<["originalDocId" := VStr (ref_id ref)]> payload))))) ;;
        ret tt)
       (fun e => log cfg Warn [Txt "log create failed"] (ErrArg e))) ;;;
  ret result.

Definition useUpdateDocument_mutationFn (cfg : UseFirebaseConfig)
    (collectionName : string) (opts : option UpdateOptions) (data : Record)
    : M St Record :=
  let enableLogging := default false (opts ≫= upd_enableLogging) in
  let debug := default false (opts ≫= upd_debug) in
  let beforeSave := opts ≫= upd_beforeSave in
  let id := get data "id" in
  let update := delete "id" data in
  let now := nowServerTimestamp in
  (* [update] is an object of this call: what beforeSave leaves in it is
     not read again *)
  transformed <- match beforeSave with
                 | Some f => saved <- call (f update) ;; ret (returned_value saved)
                 | None => ret update
                 end ;;
  let payload := <["updatedAt" := now]> transformed in
  when debug
    (log cfg Debug [Txt "📝 update "; quoted collectionName; Txt "/"; Interp id]
         (DataArg payload)) ;;;
  ref <- doc collectionName id ;;
  previous <-
    (if enableLogging && default false (includePreviousData <$> logging cfg)
     then try_catch
            (snap <- getDocByMode ref DefaultMode ;;
             ret (with_id (snap_id snap) <$> snap_data snap))
            (fun e =>
               log cfg Warn [Txt "failed to fetch previous for logging"] (ErrArg e) ;;;
               ret None)
     else ret None) ;;
  updateDoc ref payload ;;;
  when enableLogging
    (try_catch
       (userId <- currentUserId cfg ;;
        logCol <- resolveLog cfg collectionName ;;
        modifiedOn <- newDate ;;
        _ <- addDoc logCol
               (<["previousData" := from_option VObj VUndefined previous]>
               (<["timestamp" := now]>
               (<["modifiedOn" := modifiedOn]>
               (<["modifiedBy" := of_nullable userId]>
               (<["action" := VStr "UPDATE"]>
               (<["originalDocId" := id]> payload)))))) ;;
        ret tt)
       (fun e => log cfg Warn [Txt "log update failed"] (ErrArg e))) ;;;
  ret data.

Definition useDeleteDocument_mutationFn (cfg : UseFirebaseConfig)
    (collectionName : string) (opts : option DeleteOptions) (id : string)
    : M St string :=
  let enableLogging := default false (opts ≫= del_enableLogging) in
  let debug := default false (opts ≫= del_debug) in
  ref <- doc collectionName (VStr id) ;;
  deletedData <-
    try_catch
      (snap <- getDocByMode ref DefaultMode ;;
       ret (from_option VObj VNull (with_id (snap_id snap) <$> snap_data snap)))
      (fun e =>
         log cfg Warn [Txt "pre-delete fetch failed"] (ErrArg e) ;;;
         ret VNull) ;;
  deleteDoc ref ;;;
  when debug
    (log cfg Debug [Txt "🗑️ deleted "; quoted collectionName; Txt "/"; Txt id] NoArg) ;;;
  when enableLogging
    (try_catch
       (logCol <- resolveLog cfg collectionName ;;
        userId <- currentUserId cfg ;;
        modifiedOn <- newDate ;;
        _ <- addDoc logCol
               (<["deletedData" := deletedData]>
               (<["timestamp" := nowServerTimestamp]>
               (<["modifiedOn" := modifiedOn]>
               (<["modifiedBy" := of_nullable userId]>
               (<["action" := VStr "DELETE"]>
               {[ "originalDocId" := VStr id ]}))))) ;;
        ret tt)
       (fun e => log cfg Warn [Txt "log delete failed"] (ErrArg e))) ;;;
  ret id.

End Hooks.

(** ** Reading the mutations *)

(** The call of an optional beforeSave: without one the data is both
    what is returned and what is left. *)
Definition saved_by (beforeSave : option BeforeSave) (data : Record)
    : JsError + Saved :=
  match beforeSave with
  | Some f => f data
  | None => inr {| returned_value := data; argument_after := data |}
  end.

(** An optional beforeSave applied to the data: what it returns. *)
Definition transform (beforeSave : option BeforeSave)
    (data : Record) : JsError + Record :=
  match beforeSave with
  | Some f =>
      match f data with
      | inl e => inl e
      | inr saved => inr (returned_value saved)
      end
  | None => inr data
  end.

(** The object handed to an optional beforeSave, as the call leaves it:
    as it was, when there is no beforeSave or it throws. *)
Definition data_after (beforeSave : option BeforeSave) (data : Record) : Record :=
  match beforeSave with
  | Some f =>
      match f data with
      | inl _ => data
      | inr saved => argument_after saved
      end
  | None => data
  end.

(** The payload of a create: the transformed fields and both timestamps. *)
Definition create_payload (base : Record) : Record :=
  <["updatedAt" := VServerTimestamp]> (<["createdAt" := VServerTimestamp]> base).

(** The payload of an update: the transformed fields and updatedAt. *)
Definition update_payload (transformed : Record) : Record :=
  <["updatedAt" := VServerTimestamp]> transformed.

(** Whether an update reads the document before it writes. *)
Definition reads_previous (cfg : UseFirebaseConfig) (opts : option UpdateOptions)
    : bool :=
  default false (opts ≫= upd_enableLogging)
  && default false (includePreviousData <$> logging cfg).

(** The store as an update finds it when it writes: after the read of
    the previous data, if there is one. *)
Definition store_before_update {St} (be : Backend St) (cfg : UseFirebaseConfig)
    (opts : option UpdateOptions) (ref : DocRef) (w : World St) : St :=
  if reads_previous cfg opts
  then snd (be_getDoc be Combined ref (store w))
  else store w.

(** The warning a failed audit-log write leaves, and the property of a
    list of events that every failed [addDoc] in it is followed by that
    warning, which ends the list. *)
Definition warning (msg : string) (e : JsError) : Event :=
  ELog Warn [Txt msg] (ErrArg e).

Definition failures_warned (msg : string) (l : list Event) : Prop :=
  forall col p e, In (EAddDoc col p (inl e)) l -> last l = Some (warning msg e).

(** Two clients that answer alike every call a mutation makes apart from
    [addDoc], the call that writes the audit log. *)
Definition agree_outside_addDoc {St} (be1 be2 : Backend St) : Prop :=
  be_getDoc be1 = be_getDoc be2
  /\ be_updateDoc be1 = be_updateDoc be2
  /\ be_deleteDoc be1 = be_deleteDoc be2
  /\ be_doc be1 = be_doc be2.

(** ** A small client to run the hooks on *)

Module Demo.

Definition users : QuerySnapshot :=
  {| docs := [ {| qd_id := "u1"; qd_data := {[ "name" := VStr "Ann" ]} |};
               {| qd_id := "u2"; qd_data := {[ "name" := VStr "Bo" ]} |} ] |}.

(** A client without state: the cache is empty and throws, the server
    has two users, every document exists, writes succeed, and writes to
    a collection named [..._log] fail when [log_fails]. *)
Definition backend (log_fails : bool) : Backend unit :=
  {| be_getDocs := fun src q s =>
       (match src with
        | FromCache => inl (Error "unavailable")
        | _ => inr users
        end, s);
     be_getDoc := fun src ref s =>
       (inr {| snap_id := ref_id ref;
               snap_data := Some {[ "title" := VStr "Old title" ]} |}, s);
     be_addDoc := fun col payload s =>
       (if log_fails && String.eqb col (defaultResolveLogCollection "todos")
        then inl (Error "permission-denied")
        else inr {| ref_collection := col; ref_id := "new1" |}, s);
     be_updateDoc := fun ref payload s => (inr tt, s);
     be_deleteDoc := fun ref s => (inr tt, s);
     be_doc := fun col id =>
       match id with
       | VStr s => inr {| ref_collection := col; ref_id := s |}
       | _ => inl (Error "invalid-argument")
       end;
     be_newDate := fun s => ("2024-05-01T10:00:00.000Z", s);
     be_performanceNow := fun s => (0%Z, s) |}.

Definition w0 : World unit := {| store := tt; trace := [] |}.

Definition cfg : UseFirebaseConfig :=
  {| getUserId := Some (inr (Some "alice"));
     logger := Some {| lg_debug := false; lg_warn := true; lg_error := true |};
     keyPrefix := None;
     default_enabled := None;
     logging := Some {| resolveLogCollection := None; includePreviousData := true |} |}.

Definition trim_string (s : string) : string :=
  string_of_list_ascii (JS.trim (JS.chars s)).

(** beforeSave: (data) => ({ ...data, title: data.title.trim() }) *)
Definition trim_title : BeforeSave := fun data =>
  match data !! "title" with
  | Some (VStr t) =>
      inr {| returned_value := <["title" := VStr (trim_string t)]> data;
             argument_after := data |}
  | _ => inl (Error "TypeError")
  end.

(** beforeSave: (data) => { data.title = data.title.trim(); return data } *)
Definition trim_title_in_place : BeforeSave := fun data =>
  match data !! "title" with
  | Some (VStr t) =>
      inr {| returned_value := <["title" := VStr (trim_string t)]> data;
             argument_after := <["title" := VStr (trim_string t)]> data |}
  | _ => inl (Error "TypeError")
  end.

Definition todo : Record :=
  {[ "title" := VStr "  Buy milk  "; "completed" := VBool false ]}.

Definition add_opts (logging : bool) : option AddOptions :=
  Some {| add_invalidate := None; add_enableLogging := Some logging;
          add_debug := None; add_beforeSave := Some trim_title |}.

Definition add_opts_in_place : option AddOptions :=
  Some {| add_invalidate := None; add_enableLogging := None;
          add_debug := None; add_beforeSave := Some trim_title_in_place |}.

Definition upd_opts (logging : bool) : option UpdateOptions :=
  Some {| upd_enableLogging := Some logging; upd_debug := None;
          upd_beforeSave := Some trim_title |}.

Definition del_opts (logging : bool) : option DeleteOptions :=
  Some {| del_enableLogging := Some logging; del_debug := None |}.

End Demo.

(** ** The storage [safeStorage] resolves to *)

(** The in-memory fallback: a [Map] from keys to strings, kept as the list
    of its entries in insertion order. *)
Module Mem.

Definition t : Type := list (string * string).

Definition size (m : t) : nat := List.length m.

Definition keys (m : t) : list string := map fst m.

Fixpoint get (k : string) (m : t) : option string :=
  match m with
  | [] => None
  | (k', v) :: r => if String.eqb k' k then Some v else get k r
  end.

Definition has (k : string) (m : t) : bool :=
  match get k m with Some _ => true | None => false end.

(* mem.set(k, v): an entry that is there keeps its place *)
Fixpoint set (k v : string) (m : t) : t :=
  match m with
  | [] => [(k, v)]
  | (k', v') :: r =>
      if String.eqb k' k then (k', v) :: r else (k', v') :: set k v r
  end.

(* mem.delete(k) *)
Fixpoint delete (k : string) (m : t) : t :=
  match m with
  | [] => []
  | (k', v') :: r =>
      if String.eqb k' k then r else (k', v') :: delete k r
  end.

(** The object [safeStorage] builds over the map. *)
Definition length (m : t) : nat := size m.
Definition key (m : t) (i : nat) : option string := keys m !! i.
Definition getItem (m : t) (k : string) : option string :=
  if has k m then get k m else None.
Definition setItem (k v : string) (m : t) : t := set k v m.
Definition removeItem (k : string) (m : t) : t := delete k m.

(** The storage state a map stands for. *)
Definition to_storage (m : t) : Storage := list_to_map m.

End Mem.

(** What the platform has for [window.localStorage]: nothing (no window,
    or no localStorage on it), an access that throws, or a storage. *)
Inductive LocalStorage :=
  | NoLocalStorage
  | LocalStorageThrows (e : JsError)
  | LocalStorageAt (st : Storage).

(** The object [safeStorage] returns. *)
Inductive StorageLike :=
  | CustomStorage (st : Storage)
  | WindowLocalStorage (st : Storage)
  | InMemory (mem : Mem.t).

Definition safeStorage (custom : option Storage) (platform : LocalStorage)
    : option StorageLike :=
  match custom with
  | Some st => Some (CustomStorage st)
  | None =>
      match platform with
      | LocalStorageAt st => Some (WindowLocalStorage st)
      | NoLocalStorage | LocalStorageThrows _ => Some (InMemory [])
      end
  end.

Definition storage_state (s : StorageLike) : Storage :=
  match s with
  | CustomStorage st | WindowLocalStorage st => st
  | InMemory mem => Mem.to_storage mem
  end.

(** The storages that outlive a call of safeStorage(custom): the object
    given as [custom], if one is given, and the platform's localStorage.
    The hook gives cfg.storage; an exported helper gives its own storage
    argument, and never looks at the configuration.  A write through the
    object that [safeStorage] returned lands in the one the object is; a
    write to the in-memory fallback lands in a map nothing else holds. *)
Record StorageEnv := { env_custom : option Storage; env_platform : LocalStorage }.

Definition write_through (target : StorageLike) (st' : Storage)
    (env : StorageEnv) : StorageEnv :=
  match target with
  | CustomStorage _ => {| env_custom := Some st'; env_platform := env_platform env |}
  | WindowLocalStorage _ =>
      {| env_custom := env_custom env; env_platform := LocalStorageAt st' |}
  | InMemory _ => env
  end.

Definition commit (target : option StorageLike) (st' : option Storage)
    (env : StorageEnv) : StorageEnv :=
  match target, st' with
  | Some t, Some s => write_through t s env
  | _, _ => env
  end.

Definition resolve (env : StorageEnv) : option StorageLike :=
  safeStorage (env_custom env) (env_platform env).

(** The effect of useCollection that records a successful read:
    recordReadStats(safeStorage(cfg.storage), collectionName), with
    cfg.storage as [env_custom env]. *)
Definition useCollection_recordRead (now : string) (env : StorageEnv)
    (collectionName : string) : option (StorageEnv * option ReadStats) :=
  let storage := resolve env in
  '(st', stats) ← recordReadStats now (storage_state <$> storage) collectionName;
  Some (commit storage st' env, stats).

(** The stats helpers the package exports.  Each takes an optional
    [storage] of its own and resolves safeStorage(storage): the
    configuration plays no part.  The helpers that write give back the
    argument and the localStorage as they leave them. *)
Definition exported_getCollectionStats (collectionName : string)
    (storage : option Storage) (platform : LocalStorage) : option CollectionStats :=
  getCollectionStats (storage_state <$> safeStorage storage platform) collectionName.

Definition exported_clearCollectionStats (collectionName : string)
    (storage : option Storage) (platform : LocalStorage) : StorageEnv :=
  let env := {| env_custom := storage; env_platform := platform |} in
  let resolved := safeStorage storage platform in
  commit resolved (clearCollectionStats (storage_state <$> resolved) collectionName) env.

Definition exported_clearAllCollectionStats (storage : option Storage)
    (platform : LocalStorage) : StorageEnv * ClearResult :=
  let env := {| env_custom := storage; env_platform := platform |} in
  let resolved := safeStorage storage platform in
  let '(st', r) := clearAllCollectionStats (storage_state <$> resolved) in
  (commit resolved st' env, r).

(** Reads recorded one after the other, at the times [nows]. *)
Fixpoint recordReads (nows : list string) (st : Storage) (collectionName : string)
    : option Storage :=
  match nows with
  | [] => Some st
  | now :: later =>
      '(st', _) ← recordReadStats now (Some st) collectionName;
      st' ← st';
      recordReads later st' collectionName
  end.

(** ** useCollection *)

Record MetaResult := {
  meta_items : list Record;
  meta_firstDoc : option QueryDocumentSnapshot;
  meta_lastDoc : option QueryDocumentSnapshot;
  meta_size : nat;
  meta_empty : bool
}.

Inductive CollectionData :=
  | Items (l : list Record)
  | WithMeta (m : MetaResult).

Record CollectionBehavior := {
  col_preferCache : option PreferCacheMode;
  col_debug : option bool;
  col_withMeta : option bool
}.

(** The query of a collection read whose constraints were all accepted:
    the collection with the sequence of the descriptor. *)
Definition collection_query (collectionName : string)
    (options : option CollectionOptions) : Query :=
  {| q_collection := collectionName; q_constraints := constraints_of options |}.

(** The query is the collection reference itself when there is no
    constraint, buildQuery(colRef, ...constraints) otherwise: in both cases
    the collection with the constraints built. *)
Definition useCollection_queryFn {St} (be : Backend St) (fs : Constructors)
    (cfg : UseFirebaseConfig)
    (collectionName : string) (options : option CollectionOptions)
    (behavior : option CollectionBehavior) : M St CollectionData :=
  let debug := default false (behavior ≫= col_debug) in
  let preferCache := default DefaultMode (behavior ≫= col_preferCache) in
  let withMeta := default false (behavior ≫= col_withMeta) in
  start <- performanceNow be ;;
  constraints <- call (buildConstraints fs options) ;;
  let q := {| q_collection := collectionName; q_constraints := constraints |} in
  snapshot <- getDocsByMode be q preferCache ;;
  end_ <- performanceNow be ;;
  when debug
    (log cfg Debug
       [Txt "📥 "; Txt collectionName; Txt " read in "; Fixed2 (end_ - start);
        Txt "ms"]
       NoArg) ;;;
  let items := convertQuerySnapshot snapshot in
  if withMeta
  then ret (WithMeta {| meta_items := items;
                        meta_firstDoc := head (docs snapshot);
                        meta_lastDoc := last (docs snapshot);
                        meta_size := List.length (docs snapshot);
                        meta_empty := qs_empty snapshot |})
  else ret (Items items).

(** The records of a collection read, with or without its meta data. *)
Definition items_of (d : CollectionData) : list Record :=
  match d with
  | Items l => l
  | WithMeta m => meta_items m
  end.

(** How a converted record relates to the document it comes from: it has
    every field of the data, and as [id] the data's own [id] when it has
    one, the document's id otherwise. *)
Definition record_of (id : string) (data item : Record) : Prop :=
  item !! "id" = Some (default (VStr id) (data !! "id"))
  /\ forall k, k <> "id" -> item !! k = data !! k.

(** ** Cache keys and invalidation *)

(** A query key: the array handed to react-query. *)
Abbreviation QueryKey := (list Value).






(** cfg.logging?.resolveLogCollection?.(name) ?? defaultResolveLogCollection(name) *)
Definition resolveLogName (cfg : UseFirebaseConfig) (collectionName : string)
    : JsError + string :=
  match logging cfg ≫= resolveLogCollection with
  | Some resolve => resolve collectionName
  | None => inr (defaultResolveLogCollection collectionName)
  end.





(** ** useCollectionFilters *)

Section Filters.

Context {A : Type}.

(* prev.filter((_, i) => i !== index), the elements counted from [i] *)
Fixpoint drop_index_from (i : Z) (index : Z) (prev : list A) : list A :=
  match prev with
  | [] => []
  | x :: r =>
      if (i =? index)%Z
      then drop_index_from (i + 1) index r
      else x :: drop_index_from (i + 1) index r
  end.

Definition initialFilters (initial : option (list A)) : list A :=
  default [] initial.
Definition addFilter (f : A) (prev : list A) : list A := prev ++ [f].
Definition removeFilter (index : Z) (prev : list A) : list A :=
  drop_index_from 0 index prev.
Definition clearFilters (prev : list A) : list A := [].

End Filters.

(** ** What a run adds to the trace *)

(** [m] only appends to the trace, and every event it appends is in [P]. *)
Definition emits {St A} (P : Event -> Prop) (m : M St A) : Prop :=
  forall w, exists l, trace (snd (m w)) = trace w ++ l /\ Forall P l.

Definition is_log (ev : Event) : Prop :=
  match ev with ELog _ _ _ => True | _ => False end.

Definition is_read (ev : Event) : Prop :=
  match ev with EGetDocs _ _ _ | EGetDoc _ _ _ => True | _ => False end.

(** An event of a create on [c] whose audit log is [logCol]: a message
    to the logger or a write to one of the two collections. *)
Definition create_event (c : string) (logCol : JsError + string) (ev : Event)
    : Prop :=
  match ev with
  | ELog _ _ _ => True
  | EAddDoc col _ _ => col = c \/ logCol = inr col
  | _ => False
  end.

(** An event of an update or a delete of [ref]: a message to the logger,
    a plain read of [ref], the write to [ref], or a write to the audit
    log. *)
Definition update_event (ref : JsError + DocRef) (logCol : JsError + string)
    (ev : Event) : Prop :=
  match ev with
  | ELog _ _ _ => True
  | EGetDoc src r _ => src = Combined /\ ref = inr r
  | EUpdateDoc r _ _ => ref = inr r
  | EAddDoc col _ _ => logCol = inr col
  | _ => False
  end.

Definition delete_event (ref : JsError + DocRef) (logCol : JsError + string)
    (ev : Event) : Prop :=
  match ev with
  | ELog _ _ _ => True
  | EGetDoc src r _ => src = Combined /\ ref = inr r
  | EDeleteDoc r _ => ref = inr r
  | EAddDoc col _ _ => logCol = inr col
  | _ => False
  end.

(** [m] leaves the world alone and gives [r]. *)
Definition pure_of {St A} (m : M St A) (r : JsError + A) : Prop :=
  forall w, m w = (r, w).

(** The read function of the client a mode other than cache-first calls. *)
Definition mode_source (mode : PreferCacheMode) : Source :=
  match mode with
  | ServerOnly => FromServer
  | CacheOnly | CacheFirst => FromCache
  | DefaultMode => Combined
  end.

(** ** The blocks of the mutations *)

(** What a guarded call to the logger appends. *)
Definition logged (cfg : UseFirebaseConfig) (b : bool) (lvl : Level)
    (msg : list Part) (arg : LogArg) : list Event :=
  if b && has_level cfg lvl then [ELog lvl msg arg] else [].

(** cfg.getUserId?.() ?? null, as a value. *)
Definition user_of (cfg : UseFirebaseConfig) : JsError + option string :=
  match getUserId cfg with
  | Some outcome => outcome
  | None => inr None
  end.

(** The audit-log entries, field by field. *)
Definition create_entry (payload : Record) (id : string) (user : option string)
    (modifiedOn : string) : Record :=
  <["timestamp" := VServerTimestamp]>
  (<["modifiedOn" := VDate modifiedOn]>
  (<["modifiedBy" := of_nullable user]>
  (<["action" := VStr "CREATE"]>
  (<["originalDocId" := VStr id]> payload)))).

Definition update_entry (payload : Record) (id : Value) (user : option string)
    (modifiedOn : string) (previous : option Record) : Record :=
  <["previousData" := from_option VObj VUndefined previous]>
  (<["timestamp" := VServerTimestamp]>
  (<["modifiedOn" := VDate modifiedOn]>
  (<["modifiedBy" := of_nullable user]>
  (<["action" := VStr "UPDATE"]>
  (<["originalDocId" := id]> payload))))).

Definition delete_entry (id : string) (user : option string)
    (modifiedOn : string) (deletedData : Value) : Record :=
  <["deletedData" := deletedData]>
  (<["timestamp" := VServerTimestamp]>
  (<["modifiedOn" := VDate modifiedOn]>
  (<["modifiedBy" := of_nullable user]>
  (<["action" := VStr "DELETE"]>
  {[ "originalDocId" := VStr id ]})))).

(** The record a snapshot gives for the audit log: { id, ...data } when
    the document exists. *)
Definition snapshot_record (snap : DocumentSnapshot) : option Record :=
  with_id (snap_id snap) <$> snap_data snap.

Section Blocks.

Context {St : Type} (be : Backend St).

(** The try/catch of useAddDocument that writes the audit log. *)
Definition create_audit (cfg : UseFirebaseConfig) (collectionName : string)
    (payload : Record) (ref : DocRef) : M St unit :=
  try_catch
    (userId <- currentUserId cfg ;;
     when (falsy userId)
       (log cfg Warn [Txt "⚠️ logging enabled but no user id"] NoArg) ;;;
     logCol <- resolveLog cfg collectionName ;;
     modifiedOn <- newDate be ;;
     _ <- addDoc be logCol
            (<["timestamp" := nowServerTimestamp]>
            (<["modifiedOn" := modifiedOn]>
            (<["modifiedBy" := of_nullable userId]>
            (<["action" := VStr "CREATE"]>
            (<["originalDocId" := VStr (ref_id ref)]> payload))))) ;;
     ret tt)
    (fun e => log cfg Warn [Txt "log create failed"] (ErrArg e)).

(** The try/catch of useUpdateDocument that reads the previous data. *)
Definition update_previous (cfg : UseFirebaseConfig) (ref : DocRef)
    : M St (option Record) :=
  try_catch
    (snap <- getDocByMode be ref DefaultMode ;;
     ret (with_id (snap_id snap) <$> snap_data snap))
    (fun e =>
       log cfg Warn [Txt "failed to fetch previous for logging"] (ErrArg e) ;;;
       ret None).

(** The try/catch of useUpdateDocument that writes the audit log. *)
Definition update_audit (cfg : UseFirebaseConfig) (collectionName : string)
    (payload : Record) (id : Value) (previous : option Record) : M St unit :=
  try_catch
    (userId <- currentUserId cfg ;;
     logCol <- resolveLog cfg collectionName ;;
     modifiedOn <- newDate be ;;
     _ <- addDoc be logCol
            (<["previousData" := from_option VObj VUndefined previous]>
            (<["timestamp" := nowServerTimestamp]>
            (<["modifiedOn" := modifiedOn]>
            (<["modifiedBy" := of_nullable userId]>
            (<["action" := VStr "UPDATE"]>
            (<["originalDocId" := id]> payload)))))) ;;
     ret tt)
    (fun e => log cfg Warn [Txt "log update failed"] (ErrArg e)).

(** The try/catch of useDeleteDocument that reads the document first. *)
Definition delete_snapshot (cfg : UseFirebaseConfig) (ref : DocRef) : M St Value :=
  try_catch
    (snap <- getDocByMode be ref DefaultMode ;;
     ret (from_option VObj VNull (with_id (snap_id snap) <$> snap_data snap)))
    (fun e =>
       log cfg Warn [Txt "pre-delete fetch failed"] (ErrArg e) ;;;
       ret VNull).

(** The try/catch of useDeleteDocument that writes the audit log. *)
Definition delete_audit (cfg : UseFirebaseConfig) (collectionName : string)
    (id : string) (deletedData : Value) : M St unit :=
  try_catch
    (logCol <- resolveLog cfg collectionName ;;
     userId <- currentUserId cfg ;;
     modifiedOn <- newDate be ;;
     _ <- addDoc be logCol
            (<["deletedData" := deletedData]>
            (<["timestamp" := nowServerTimestamp]>
            (<["modifiedOn" := modifiedOn]>
            (<["modifiedBy" := of_nullable userId]>
            (<["action" := VStr "DELETE"]>
            {[ "originalDocId" := VStr id ]}))))) ;;
     ret tt)
    (fun e => log cfg Warn [Txt "log delete failed"] (ErrArg e)).

End Blocks.

(** The client of [Demo.backend false] with every read of a document
    throwing. *)
Definition unreadable_backend : Backend unit :=
  {| be_getDocs := be_getDocs (Demo.backend false);
     be_getDoc := fun src ref s => (inl (Error "unavailable"), s);
     be_addDoc := be_addDoc (Demo.backend false);
     be_updateDoc := be_updateDoc (Demo.backend false);
     be_deleteDoc := be_deleteDoc (Demo.backend false);
     be_doc := be_doc (Demo.backend false);
     be_newDate := be_newDate (Demo.backend false);
     be_performanceNow := be_performanceNow (Demo.backend false) |}.

(** * Properties *)

(** ** The number conversions on small inputs *)

Example Number_examples :
  map JS.Number ["0"; " 12 "; "007"; "abc"; "NaN"; "12a"; "0x"; "e5"; "1.5"; "-3";
                 "1e3"; "0x1F"; "Infinity"; ".5e+2"; "9007199254740993"]
  = [Some (JInt 0); Some (JInt 12); Some (JInt 7); Some JNaN; Some JNaN;
     Some JNaN; Some JNaN; Some JNaN; None; None; None; None; None; None; None].
Proof. vm_compute. reflexivity. Qed.

Example Number_blank : JS.Number EmptyString = Some (JInt 0).
Proof. reflexivity. Qed.

Example String_examples :
  map JS.String [JInt 0; JInt 41; JNaN] = ["0"; "41"; "NaN"].
Proof. reflexivity. Qed.

(** ** Query constraints *)

Lemma foldl_push {A B} (f : A -> B) (l : list A) (acc : list B) :
  foldl (fun cs x => cs ++ [f x]) acc l = acc ++ map f l.
Proof.
  revert acc. induction l as [|x l IH]; intros acc; simpl.
  - by rewrite app_nil_r.
  - rewrite IH. by rewrite <- app_assoc.
Qed.

Lemma first_refusal_app (fs : Constructors) (l1 l2 : list QueryConstraint) :
  first_refusal fs (l1 ++ l2)
  = match first_refusal fs l1 with
    | Some e => Some e
    | None => first_refusal fs l2
    end.
Proof.
  induction l1 as [|c l1 IH]; simpl; [done|].
  by destruct (refusal fs c).
Qed.

(* a loop of pushes stops at the first clause whose constructor throws *)
Lemma push_each_spec (fs : Constructors) {A} (refuses : A -> option JsError)
    (made : A -> QueryConstraint) (xs : list A) (acc : list QueryConstraint) :
  (forall x, refuses x = refusal fs (made x)) ->
  push_each (fun x => construct (refuses x) (made x)) xs acc
  = match first_refusal fs (map made xs) with
    | Some e => inl e
    | None => inr (acc ++ map made xs)
    end.
Proof.
  intros Hr. revert acc. induction xs as [|x xs IH]; intros acc; simpl.
  - by rewrite app_nil_r.
  - rewrite <- Hr. destruct (refuses x) as [e|]; simpl; [done|].
    rewrite IH. destruct (first_refusal fs (map made xs)); [done|].
    by rewrite <- app_assoc.
Qed.

(** C5, amended: as long as no constructor of the client refuses a
    clause, the constraints are the filters in input order, then the sorts
    in input order (ascending when no direction is given), then the limit
    if there is one, then one positional constraint if there is a cursor
    with a non-null reference; a cursor with a null reference adds nothing,
    and no descriptor gives no constraint.  When a constructor refuses a
    clause, the builder throws what the first refusal along that sequence
    throws, and there is no sequence. *)
Theorem buildConstraints_order (fs : Constructors) :
  buildConstraints fs None = inr [] /\
  forall opts : CollectionOptions,
    let sequence := filter_constraints opts ++ sort_constraints opts
                    ++ limit_constraint opts ++ cursor_constraint opts in
    buildConstraints fs (Some opts)
    = match first_refusal fs sequence with
      | Some e => inl e
      | None => inr sequence
      end.
Proof.
  split; [reflexivity|].
  intros [wh ob lim cur]. cbv zeta.
  unfold buildConstraints, filter_constraints, sort_constraints,
    limit_constraint, cursor_constraint, where_, orderBy, limit, startAfter,
    endBefore.
  cbn [opt_where opt_orderBy opt_limit opt_cursor].
  set (ws := map (fun c => QWhere (w_field c) (w_operator c) (w_value c))
                 (default [] wh)).
  set (os := map (fun o => QOrderBy (o_field o)
                             (match o_direction o with Some d => d | None => Asc end))
                 (default [] ob)).
  rewrite !first_refusal_app.
  (* the filters *)
  assert (Hw : match wh with
               | Some l =>
                   push_each (fun c => construct
                                         (where_refuses fs (w_field c) (w_operator c) (w_value c))
                                         (QWhere (w_field c) (w_operator c) (w_value c)))
                             l []
               | None => inr []
               end
               = match first_refusal fs ws with
                 | Some e => inl e
                 | None => inr ws
                 end).
  { subst ws. destruct wh as [l|]; [|done]. by rewrite (push_each_spec fs). }
  rewrite Hw. clear Hw.
  destruct (first_refusal fs ws) as [e|]; [done|]. cbn [and_then].
  (* the sorts *)
  assert (Ho : match ob with
               | Some l =>
                   push_each (fun o => construct
                                         (orderBy_refuses fs (o_field o)
                                            (default Asc (o_direction o)))
                                         (QOrderBy (o_field o)
                                            (default Asc (o_direction o))))
                             l ws
               | None => inr ws
               end
               = match first_refusal fs os with
                 | Some e => inl e
                 | None => inr (ws ++ os)
                 end).
  { subst os. destruct ob as [l|]; simpl; [|by rewrite app_nil_r].
    by rewrite (push_each_spec fs (fun o => orderBy_refuses fs (o_field o)
                                              (default Asc (o_direction o)))
                  (fun o => QOrderBy (o_field o) (default Asc (o_direction o)))). }
  rewrite Ho. clear Ho.
  destruct (first_refusal fs os) as [e|]; [done|]. cbn [and_then].
  (* the limit and the cursor *)
  destruct lim as [n|]; cbn [first_refusal refusal push construct and_then].
  - destruct (limit_refuses fs n) as [e|]; [done|]. cbn [and_then].
    destruct cur as [[[] [d|]]|];
      cbn [first_refusal refusal push construct and_then c_type c_doc];
      rewrite ?app_nil_r, <- ?app_assoc; try reflexivity.
    + destruct (startAfter_refuses fs d); cbn [push construct and_then]; [done|].
      by rewrite <- ?app_assoc.
    + destruct (endBefore_refuses fs d); cbn [push construct and_then]; [done|].
      by rewrite <- ?app_assoc.
  - destruct cur as [[[] [d|]]|];
      cbn [first_refusal refusal push construct and_then c_type c_doc];
      rewrite ?app_nil_r, <- ?app_assoc; try reflexivity.
    + destruct (startAfter_refuses fs d); cbn [push construct and_then]; [done|].
      by rewrite <- ?app_assoc.
    + destruct (endBefore_refuses fs d); cbn [push construct and_then]; [done|].
      by rewrite <- ?app_assoc.
Qed.

(** C5 as stated fails on a limit of 0: limit() throws, and the builder
    has no sequence for the descriptor; so it does on an empty field. *)
Lemma buildConstraints_limit_zero :
  let opts := {| opt_where := None; opt_orderBy := None; opt_limit := Some (JInt 0);
                 opt_cursor := None |} in
  limit_constraint opts = [QLimit (JInt 0)]
  /\ buildConstraints Firebase.constructors (Some opts)
     = inl (Error "Function limit() requires a positive number, but it was: 0.")
  /\ buildConstraints Firebase.constructors (Some opts)
     <> inr (filter_constraints opts ++ sort_constraints opts
             ++ limit_constraint opts ++ cursor_constraint opts).
Proof.
  intros opts. split; [reflexivity|]. split; [reflexivity|]. discriminate.
Qed.

Example buildConstraints_empty_field :
  exists e,
    buildConstraints Firebase.constructors
      (Some {| opt_where := Some [ {| w_field := EmptyString; w_operator := OpEq;
                                      w_value := VNum (JInt 1) |} ];
               opt_orderBy := None; opt_limit := Some (JInt 10);
               opt_cursor := None |})
    = inl e.
Proof. eexists. reflexivity. Qed.

Example buildConstraints_example :
  let d := {| snap_id := "u7"; snap_data := Some ∅ |} in
  buildConstraints Firebase.constructors
    (Some {| opt_where := Some [ {| w_field := "age"; w_operator := OpGe; w_value := VNum (JInt 18) |} ];
             opt_orderBy := Some [ {| o_field := "name"; o_direction := None |};
                                   {| o_field := "profile.age"; o_direction := Some Desc |} ];
             opt_limit := Some (JInt 10);
             opt_cursor := Some {| c_type := After; c_doc := Some d |} |})
  = inr [QWhere "age" OpGe (VNum (JInt 18)); QOrderBy "name" Asc;
         QOrderBy "profile.age" Desc; QLimit (JInt 10); QStartAfter d].
Proof. reflexivity. Qed.

Example buildConstraints_null_cursor :
  buildConstraints Firebase.constructors
    (Some {| opt_where := None; opt_orderBy := None; opt_limit := None;
             opt_cursor := Some {| c_type := Before; c_doc := None |} |})
  = inr [].
Proof. reflexivity. Qed.

(** ** Read statistics *)

Lemma Number_zero : JS.Number "0" = Some (JInt 0).
Proof. reflexivity. Qed.

(** C9: after clearStats, getStats of the same collection is
    {readCount: 0, lastFetched: null}, and clearing twice leaves the
    storage that clearing once leaves. *)
Theorem clearCollectionStats_then_get (storage : option Storage) (c : string) :
  getCollectionStats (clearCollectionStats storage c) c
  = Some {| readCount := JInt 0; lastFetched := None |}
  /\ clearCollectionStats (clearCollectionStats storage c) c
     = clearCollectionStats storage c.
Proof.
  destruct storage as [st|]; simpl; [|done].
  unfold getItem, removeItem. split.
  - rewrite (lookup_delete_ne _ (lastFetchedKey c) (readCountKey c)).
    + by rewrite !lookup_delete_eq.
    + unfold lastFetchedKey, readCountKey. discriminate.
  - f_equal. apply map_eq. intros k.
    rewrite !lookup_delete. repeat case_decide; done.
Qed.

Example clearCollectionStats_example :
  let st : Storage := {[ readCountKey "users" := "3";
                         lastFetchedKey "users" := "2024-05-01T10:00:00.000Z";
                         "theme" := "dark" ]} in
  clearCollectionStats (Some st) "users" = Some {[ "theme" := "dark" ]}.
Proof. vm_compute. reflexivity. Qed.

(** *** clearAllCollectionStats *)

Lemma is_stats_key_empty : is_stats_key EmptyString = false.
Proof. reflexivity. Qed.

Lemma collect_key_spec (st : Storage) (acc : list string) (i : nat) (k : string) :
  stored_keys st !! i = Some k ->
  collect_key st acc i = acc ++ filter (fun k => is_stats_key k) [k].
Proof.
  intros Hk. unfold collect_key, key. rewrite Hk.
  destruct k as [|a k].
  - by rewrite app_nil_r.
  - destruct (is_stats_key (String a k)) eqn:E.
    + rewrite filter_cons_True; [done | by apply Is_true_true].
    + rewrite filter_cons_False; [by rewrite app_nil_r | by apply Is_true_false].
Qed.

Lemma foldl_collect (st : Storage) (n : nat) (acc : list string) :
  n <= length (stored_keys st) ->
  foldl (collect_key st) acc (seq 0 n)
  = acc ++ filter (fun k => is_stats_key k) (take n (stored_keys st)).
Proof.
  induction n as [|n IH]; intros Hn.
  - simpl. by rewrite app_nil_r.
  - rewrite seq_S, foldl_app, IH by lia. simpl.
    destruct (lookup_lt_is_Some_2 (stored_keys st) n) as [k Hk]; [lia|].
    rewrite (collect_key_spec _ _ _ _ Hk), (take_S_r _ _ _ Hk), filter_app.
    by rewrite <- app_assoc.
Qed.

Lemma toRemove_spec (st : Storage) :
  foldl (collect_key st) [] (seq 0 (storage_length st))
  = filter (fun k => is_stats_key k) (stored_keys st).
Proof.
  unfold storage_length.
  assert (Hlen : size st = length (stored_keys st)).
  { unfold stored_keys. by rewrite length_fmap, length_map_to_list. }
  rewrite Hlen, foldl_collect by lia. simpl. by rewrite firstn_all.
Qed.

Lemma lookup_remove_all (ks : list string) (st : Storage) (k : string) :
  foldl (fun s k => removeItem k s) st ks !! k
  = if decide (k ∈ ks) then None else st !! k.
Proof.
  revert st. induction ks as [|k' ks IH]; intros st; simpl; [done|].
  rewrite IH. unfold removeItem. rewrite lookup_delete.
  destruct (decide (k ∈ ks)) as [Hin|Hin], (decide (k' = k)) as [Heq|Hne],
    (decide (k ∈ k' :: ks)) as [Hin'|Hin']; try done.
  - exfalso. apply Hin'. by right.
  - exfalso. apply Hin'. by right.
  - exfalso. apply Hin'. subst. by left.
  - apply elem_of_cons in Hin' as [->|?]; done.
Qed.

Lemma size_remove_all (ks : list string) (st : Storage) :
  NoDup ks -> (forall k, k ∈ ks -> is_Some (st !! k)) ->
  size (foldl (fun s k => removeItem k s) st ks) + length ks = size st.
Proof.
  revert st. induction ks as [|k ks IH]; intros st Hnd Hin; simpl; [lia|].
  apply NoDup_cons in Hnd as [Hk Hnd].
  destruct (Hin k) as [v Hv]; [by left|].
  assert (Hsz : size (removeItem k st) = pred (size st))
    by (by apply (map_size_delete_Some k st)).
  assert (Hne : size st <> 0) by (apply map_size_ne_0_lookup; eauto).
  specialize (IH (removeItem k st) Hnd).
  rewrite Hsz in IH. rewrite Nat.add_succ_r, IH; [lia|].
  intros k' Hk'. unfold removeItem.
  rewrite lookup_delete_ne; [apply Hin; by right|].
  intros ->. done.
Qed.

Lemma stored_keys_lookup (st : Storage) (k : string) :
  k ∈ stored_keys st <-> is_Some (st !! k).
Proof.
  unfold stored_keys. rewrite list_elem_of_fmap. split.
  - intros [[k' v] [-> Hin]]. apply elem_of_map_to_list in Hin. eauto.
  - intros [v Hv]. exists (k, v). split; [done|]. by apply elem_of_map_to_list.
Qed.

(** C8: clearAllStats removes exactly the keys that start with the
    read-count prefix or the last-fetched prefix, returns how many keys it
    removed, and leaves every other key with its value. *)
Theorem clearAllCollectionStats_frame (st : Storage) :
  exists (st' : Storage) (n : nat),
    clearAllCollectionStats (Some st) = (Some st', {| removed := n |})
    /\ (forall k, st' !! k = if is_stats_key k then None else st !! k)
    /\ size st' + n = size st.
Proof.
  eexists _, _. split; [reflexivity|].
  rewrite toRemove_spec. split.
  - intros k. rewrite lookup_remove_all.
    destruct (is_stats_key k) eqn:E.
    + case_decide as Hin; [done|].
      destruct (st !! k) as [v|] eqn:Hv; [|done].
      exfalso. apply Hin, list_elem_of_filter. split; [by rewrite E|].
      apply stored_keys_lookup. eauto.
    + rewrite decide_False; [done|].
      intros [H _]%list_elem_of_filter. by rewrite E in H.
  - apply size_remove_all.
    + apply NoDup_filter, NoDup_fst_map_to_list.
    + intros k [_ Hin]%list_elem_of_filter. by apply stored_keys_lookup.
Qed.

Example clearAllCollectionStats_example :
  let st : Storage := {[ readCountKey "users" := "3";
                         lastFetchedKey "users" := "2024-05-01T10:00:00.000Z";
                         readCountKey "todos" := "1";
                         "theme" := "dark";
                         "@romyapps:other" := "x" ]} in
  clearAllCollectionStats (Some st)
  = (Some {[ "theme" := "dark"; "@romyapps:other" := "x" ]}, {| removed := 3 |}).
Proof. vm_compute. reflexivity. Qed.

(** *** recordReadStats *)

Module JSFacts.

Lemma digit_not_ws c : JS.is_digit c = true -> JS.is_ws c = false.
Proof.
  unfold JS.is_digit, JS.is_ws. intros [H1 H2]%andb_true_iff.
  apply Nat.leb_le in H1. apply Nat.leb_le in H2.
  apply orb_false_iff. split.
  - apply andb_false_iff. right. apply Nat.leb_gt. lia.
  - apply Nat.eqb_neq. lia.
Qed.

Lemma digit_is_ascii c : JS.is_digit c = true -> JS.is_ascii c = true.
Proof.
  unfold JS.is_digit, JS.is_ascii. intros [H1 H2]%andb_true_iff.
  apply Nat.leb_le in H2. apply Nat.ltb_lt. lia.
Qed.

Lemma drop_ws_digits l : forallb JS.is_digit l = true -> JS.drop_ws l = l.
Proof.
  destruct l as [|c l]; simpl; [done|].
  intros [Hc _]%andb_true_iff. by rewrite (digit_not_ws c Hc).
Qed.

Lemma forallb_rev_digits l :
  forallb JS.is_digit l = true -> forallb JS.is_digit (rev l) = true.
Proof.
  rewrite !forallb_forall. intros H x Hx. apply H. by apply in_rev.
Qed.

Lemma trim_digits l : forallb JS.is_digit l = true -> JS.trim l = l.
Proof.
  intros H. unfold JS.trim.
  rewrite (drop_ws_digits l H), (drop_ws_digits _ (forallb_rev_digits l H)).
  apply rev_involutive.
Qed.

Lemma string_of_uint_digits d :
  forallb JS.is_digit (JS.chars (NilEmpty.string_of_uint d)) = true.
Proof. induction d; simpl; try done; by rewrite IHd. Qed.

Lemma digits_all_ascii l :
  forallb JS.is_digit l = true -> forallb JS.is_ascii l = true.
Proof.
  rewrite !forallb_forall. intros H x Hx. by apply digit_is_ascii, H.
Qed.

Lemma to_uint_nonnil n : N.to_uint n <> Decimal.Nil.
Proof.
  destruct n as [|p]; simpl; [discriminate|].
  apply DecimalPos.Unsigned.to_uint_nonnil.
Qed.

(** What [String] prints, [Number] reads back. *)
Lemma Number_String n :
  (n <= JS.max_safe)%N -> JS.Number (JS.String (JInt n)) = Some (JInt n).
Proof.
  intros Hn. unfold JS.String, NilZero.string_of_uint.
  pose proof (to_uint_nonnil n) as Hnil.
  set (d := N.to_uint n) in *.
  assert (Hs : match d with
               | Decimal.Nil => "0"
               | _ => NilEmpty.string_of_uint d
               end = NilEmpty.string_of_uint d) by (by destruct d).
  rewrite Hs. unfold JS.Number.
  pose proof (string_of_uint_digits d) as Hd.
  rewrite (digits_all_ascii _ Hd), (trim_digits _ Hd). simpl.
  assert (Hne : JS.is_nil (JS.chars (NilEmpty.string_of_uint d)) = false)
    by (by destruct d).
  rewrite Hne. unfold JS.digits_value, JS.chars.
  rewrite string_of_list_ascii_of_string, NilEmpty.usu. simpl.
  subst d. rewrite DecimalN.Unsigned.of_to.
  by apply N.leb_le in Hn as ->.
Qed.

End JSFacts.

Lemma recordReadStats_unfold (now : string) (st : Storage) (c : string)
    (count : JSNumber) :
  stored_count st c = Some count ->
  recordReadStats now (Some st) c
  = Some (Some (<[lastFetchedKey c := now]>
                  (<[readCountKey c := JS.String (JS.add1 count)]> st)),
          Some {| updated := JS.add1 count |}).
Proof.
  unfold stored_count, recordReadStats, getItem, setItem. intros H.
  destruct (st !! readCountKey c) as [s|]; simpl.
  - by rewrite H.
  - by injection H as <-.
Qed.

Lemma stats_keys_differ (c : string) : lastFetchedKey c <> readCountKey c.
Proof. unfold lastFetchedKey, readCountKey. discriminate. Qed.

(** C3, amended: recordRead starts from the stored count, 0 when nothing
    is stored; for a stored count [n] below [2^53] it writes [n + 1] in
    decimal under the read-count key and the current timestamp under the
    last-fetched key, returns [n + 1], and the count it has stored is the
    one the next read starts from. *)
Theorem recordReadStats_increments (now : string) (st : Storage) (c : string) (n : N) :
  stored_count st c = Some (JInt n) ->
  (n < JS.max_safe)%N ->
  let st' := <[lastFetchedKey c := now]>
               (<[readCountKey c := JS.String (JInt (n + 1))]> st) in
  recordReadStats now (Some st) c = Some (Some st', Some {| updated := JInt (n + 1) |})
  /\ stored_count st' c = Some (JInt (n + 1)).
Proof.
  intros H Hn st'. split.
  - rewrite (recordReadStats_unfold now st c _ H). unfold JS.add1.
    by apply N.ltb_lt in Hn as ->.
  - unfold stored_count, getItem, st'.
    rewrite lookup_insert_ne by apply stats_keys_differ.
    rewrite lookup_insert_eq. apply JSFacts.Number_String. lia.
Qed.

Lemma recordReadStats_increments_witness :
  let st : Storage := {[ readCountKey "users" := "41" ]} in
  let now := "2024-05-01T10:00:00.000Z" in
  stored_count st "users" = Some (JInt 41)
  /\ (41 < JS.max_safe)%N
  /\ recordReadStats now (Some st) "users"
     = Some (Some (<[lastFetchedKey "users" := now]>
                     (<[readCountKey "users" := "42"]> st)),
             Some {| updated := JInt 42 |}).
Proof.
  intros st now.
  assert (H1 : stored_count st "users" = Some (JInt 41)).
  { unfold stored_count, getItem, st. rewrite lookup_singleton_eq.
    vm_compute. reflexivity. }
  assert (H2 : (41 < JS.max_safe)%N) by reflexivity.
  split; [exact H1|]. split; [exact H2|].
  exact (proj1 (recordReadStats_increments now st "users" 41 H1 H2)).
Defined.

(** With nothing stored the first read is counted 1. *)
Lemma recordReadStats_first (now : string) (st : Storage) (c : string) :
  st !! readCountKey c = None ->
  recordReadStats now (Some st) c
  = Some (Some (<[lastFetchedKey c := now]> (<[readCountKey c := "1"]> st)),
          Some {| updated := JInt 1 |}).
Proof.
  intros H. apply (recordReadStats_unfold now st c (JInt 0)).
  unfold stored_count, getItem. by rewrite H.
Qed.

(** A stored value that is not numeric is read as NaN, and NaN is what
    is written back and returned. *)
Lemma recordReadStats_NaN (now : string) (st : Storage) (c s : string) :
  st !! readCountKey c = Some s -> JS.Number s = Some JNaN ->
  recordReadStats now (Some st) c
  = Some (Some (<[lastFetchedKey c := now]> (<[readCountKey c := "NaN"]> st)),
          Some {| updated := JNaN |}).
Proof.
  intros H Hs. apply (recordReadStats_unfold now st c JNaN).
  unfold stored_count, getItem. by rewrite H.
Qed.

(** C3 as stated fails: with "abc" stored as the count, the
    specification's reading starts from 0 and stores "1"; the code stores
    "NaN" and returns NaN. *)
Lemma recordReadStats_non_numeric :
  let st : Storage := {[ readCountKey "users" := "abc" ]} in
  let now := "2024-05-01T10:00:00.000Z" in
  spec_recordRead now st "users"
  = Some (<[lastFetchedKey "users" := now]> (<[readCountKey "users" := "1"]> st),
          JInt 1)
  /\ recordReadStats now (Some st) "users"
     = Some (Some (<[lastFetchedKey "users" := now]>
                     (<[readCountKey "users" := "NaN"]> st)),
             Some {| updated := JNaN |})
  /\ ~ (exists st' n,
          spec_recordRead now st "users" = Some (st', n)
          /\ recordReadStats now (Some st) "users"
             = Some (Some st', Some {| updated := n |})).
Proof.
  intros st now.
  assert (Hnum : JS.Number "abc" = Some JNaN) by (vm_compute; reflexivity).
  assert (Hs : spec_recordRead now st "users"
               = Some (<[lastFetchedKey "users" := now]>
                         (<[readCountKey "users" := "1"]> st), JInt 1)).
  { unfold spec_recordRead, spec_stored_count, getItem, setItem, st.
    rewrite lookup_singleton_eq, Hnum. reflexivity. }
  assert (Hc : recordReadStats now (Some st) "users"
               = Some (Some (<[lastFetchedKey "users" := now]>
                               (<[readCountKey "users" := "NaN"]> st)),
                       Some {| updated := JNaN |})).
  { apply (recordReadStats_NaN now st "users" "abc"); [|exact Hnum].
    unfold st. apply lookup_singleton_eq. }
  split; [exact Hs|]. split; [exact Hc|].
  intros (st' & n & Hs' & Hc').
  rewrite Hs in Hs'. rewrite Hc in Hc'.
  apply (f_equal (fun o : option (Storage * JSNumber) => snd <$> o)) in Hs'.
  apply (f_equal (fun o : option (option Storage * option ReadStats) =>
                    o ≫= (fun r => updated <$> snd r))) in Hc'.
  simpl in Hs', Hc'. congruence.
Qed.

(** ** Cache modes *)

Section CacheModes.

Context {St : Type} (be : Backend St).

Lemma getDocsFrom_run (src : Source) (q : Query) (w : World St) :
  getDocsFrom be src q w
  = (fst (be_getDocs be src q (store w)),
     {| store := snd (be_getDocs be src q (store w));
        trace := trace w ++ [EGetDocs src q (fst (be_getDocs be src q (store w)))] |}).
Proof. unfold getDocsFrom, emit. by destruct (be_getDocs be src q (store w)). Qed.

Lemma getDocFrom_run (src : Source) (ref : DocRef) (w : World St) :
  getDocFrom be src ref w
  = (fst (be_getDoc be src ref (store w)),
     {| store := snd (be_getDoc be src ref (store w));
        trace := trace w ++ [EGetDoc src ref (fst (be_getDoc be src ref (store w)))] |}).
Proof. unfold getDocFrom, emit. by destruct (be_getDoc be src ref (store w)). Qed.

Lemma server_reads_app (l1 l2 : list Event) :
  server_reads (l1 ++ l2) = server_reads l1 + server_reads l2.
Proof. unfold server_reads. by rewrite List.filter_app, length_app. Qed.

(** In cache-first mode a query stops at a cache read that succeeded
    and is not empty, and otherwise reads the server once and returns
    what the server read gives. *)
Lemma getDocsByMode_cache_first (q : Query) (w : World St) :
  let '(rc, s1) := be_getDocs be FromCache q (store w) in
  let '(rs, s2) := be_getDocs be FromServer q s1 in
  getDocsByMode be q CacheFirst w
  = if docs_hit rc
    then (rc, {| store := s1; trace := trace w ++ [EGetDocs FromCache q rc] |})
    else (rs, {| store := s2;
                 trace := trace w ++ [EGetDocs FromCache q rc;
                                      EGetDocs FromServer q rs] |}).
Proof.
  destruct (be_getDocs be FromCache q (store w)) as [rc s1] eqn:Ec.
  destruct (be_getDocs be FromServer q s1) as [rs s2] eqn:Es.
  unfold getDocsByMode, bind, try_catch, getDocsFromCache, getDocsFromServer, ret.
  rewrite getDocsFrom_run, Ec. simpl.
  destruct rc as [e|snap]; simpl.
  - rewrite getDocsFrom_run. simpl. rewrite Es. simpl.
    by rewrite <- app_assoc.
  - destruct (qs_empty snap); simpl; [|done].
    rewrite getDocsFrom_run. simpl. rewrite Es. simpl.
    by rewrite <- app_assoc.
Qed.

Lemma getDocByMode_cache_first (ref : DocRef) (w : World St) :
  let '(rc, s1) := be_getDoc be FromCache ref (store w) in
  let '(rs, s2) := be_getDoc be FromServer ref s1 in
  getDocByMode be ref CacheFirst w
  = if doc_hit rc
    then (rc, {| store := s1; trace := trace w ++ [EGetDoc FromCache ref rc] |})
    else (rs, {| store := s2;
                 trace := trace w ++ [EGetDoc FromCache ref rc;
                                      EGetDoc FromServer ref rs] |}).
Proof.
  destruct (be_getDoc be FromCache ref (store w)) as [rc s1] eqn:Ec.
  destruct (be_getDoc be FromServer ref s1) as [rs s2] eqn:Es.
  unfold getDocByMode, bind, try_catch, getDocFromCache, getDocFromServer, ret.
  rewrite getDocFrom_run, Ec. simpl.
  destruct rc as [e|snap]; simpl.
  - rewrite getDocFrom_run. simpl. rewrite Es. simpl.
    by rewrite <- app_assoc.
  - destruct (snap_exists snap); simpl; [done|].
    rewrite getDocFrom_run. simpl. rewrite Es. simpl.
    by rewrite <- app_assoc.
Qed.

Lemma events_since_app (w w' : World St) (l : list Event) :
  trace w' = trace w ++ l -> events_since w w' = l.
Proof. unfold events_since. intros ->. by rewrite drop_app_length. Qed.

Lemma events_since_mk (w : World St) (s : St) (l : list Event) :
  events_since w {| store := s; trace := trace w ++ l |} = l.
Proof. by apply events_since_app. Qed.

End CacheModes.

(** C1: in cache-first mode, for a query and for a document reference: when
    the cache read throws or comes back empty (no rows; the document does
    not exist), the server is read exactly once and the result is the
    server read's result, the outcome of the cache read being dropped; when
    the cache read succeeds and is not empty, its result is returned and
    the server is not read. *)
Theorem cache_first_fallback {St : Type} (be : Backend St) (w : World St) :
  (forall q : Query,
     let '(rc, s1) := be_getDocs be FromCache q (store w) in
     let '(rs, _) := be_getDocs be FromServer q s1 in
     let '(r, w') := getDocsByMode be q CacheFirst w in
     if docs_hit rc
     then r = rc
          /\ events_since w w' = [EGetDocs FromCache q rc]
          /\ server_reads (events_since w w') = 0
     else r = rs
          /\ events_since w w' = [EGetDocs FromCache q rc; EGetDocs FromServer q rs]
          /\ server_reads (events_since w w') = 1)
  /\
  (forall ref : DocRef,
     let '(rc, s1) := be_getDoc be FromCache ref (store w) in
     let '(rs, _) := be_getDoc be FromServer ref s1 in
     let '(r, w') := getDocByMode be ref CacheFirst w in
     if doc_hit rc
     then r = rc
          /\ events_since w w' = [EGetDoc FromCache ref rc]
          /\ server_reads (events_since w w') = 0
     else r = rs
          /\ events_since w w' = [EGetDoc FromCache ref rc; EGetDoc FromServer ref rs]
          /\ server_reads (events_since w w') = 1).
Proof.
  split.
  - intros q. pose proof (getDocsByMode_cache_first be q w) as H.
    destruct (be_getDocs be FromCache q (store w)) as [rc s1].
    destruct (be_getDocs be FromServer q s1) as [rs s2].
    rewrite H. destruct (docs_hit rc);
      (split; [done|]);
      rewrite events_since_mk; done.
  - intros ref. pose proof (getDocByMode_cache_first be ref w) as H.
    destruct (be_getDoc be FromCache ref (store w)) as [rc s1].
    destruct (be_getDoc be FromServer ref s1) as [rs s2].
    rewrite H. destruct (doc_hit rc);
      (split; [done|]);
      rewrite events_since_mk; done.
Qed.

(** Scenario A: cache-first on "users" with nothing in the cache and two
    users on the server. *)
Example cache_first_scenario_A :
  let q := {| q_collection := "users"; q_constraints := [] |} in
  let run := getDocsByMode (Demo.backend false) q CacheFirst Demo.w0 in
  trace (snd run)
  = [EGetDocs FromCache q (inl (Error "unavailable"));
     EGetDocs FromServer q (inr Demo.users)]
  /\ fst run = inr Demo.users
  /\ convertQuerySnapshot Demo.users
     = [ {[ "id" := VStr "u1"; "name" := VStr "Ann" ]};
         {[ "id" := VStr "u2"; "name" := VStr "Bo" ]} ].
Proof. vm_compute. repeat split. Qed.

(** A cache read that throws, and one that comes back empty, are no hits. *)
Lemma cache_miss_cases (e : JsError) (id : string) :
  docs_hit (inl e) = false /\ docs_hit (inr {| docs := [] |}) = false
  /\ doc_hit (inl e) = false
  /\ doc_hit (inr {| snap_id := id; snap_data := None |}) = false.
Proof. done. Qed.

(** C6: in cache-only mode, for a query and for a document reference, the
    cache read is the only call made, the server is never read, and what
    the cache read gives, a failure included, is the result. *)
Theorem cache_only_never_reads_server {St : Type} (be : Backend St) (w : World St) :
  (forall q : Query,
     let '(rc, _) := be_getDocs be FromCache q (store w) in
     let '(r, w') := getDocsByMode be q CacheOnly w in
     r = rc
     /\ events_since w w' = [EGetDocs FromCache q rc]
     /\ server_reads (events_since w w') = 0)
  /\
  (forall ref : DocRef,
     let '(rc, _) := be_getDoc be FromCache ref (store w) in
     let '(r, w') := getDocByMode be ref CacheOnly w in
     r = rc
     /\ events_since w w' = [EGetDoc FromCache ref rc]
     /\ server_reads (events_since w w') = 0).
Proof.
  split.
  - intros q. unfold getDocsByMode, getDocsFromCache.
    rewrite getDocsFrom_run.
    destruct (be_getDocs be FromCache q (store w)) as [rc s1]. simpl.
    split; [done|]. rewrite events_since_mk. done.
  - intros ref. unfold getDocByMode, getDocFromCache.
    rewrite getDocFrom_run.
    destruct (be_getDoc be FromCache ref (store w)) as [rc s1]. simpl.
    split; [done|]. rewrite events_since_mk. done.
Qed.

(** ** useDocument without an identifier *)

(** C7: without a document identifier useDocument calls nothing (the
    world, trace included, is as before) and reports no data and no error:
    the query is not fetched or, were it enabled by an option, its data is
    null. *)
Theorem useDocument_without_id {St : Type} (be : Backend St)
    (cfg : UseFirebaseConfig) (collectionName : string)
    (behavior : option QueryBehavior) (w : World St) :
  exists r : QueryResult (option Record),
    useDocument be cfg collectionName None behavior w = (inr r, w)
    /\ (r = NotFetched \/ r = Success None).
Proof.
  unfold useDocument, useQuery, useDocument_queryFn. simpl.
  destruct (default _ _).
  - exists (Success None). split; [done | by right].
  - exists NotFetched. split; [done | by left].
Qed.

(** The empty string counts as no identifier too. *)
Lemma useDocument_queryFn_empty_id {St : Type} (be : Backend St)
    (cfg : UseFirebaseConfig) (collectionName : string)
    (behavior : option QueryBehavior) (w : World St) :
  useDocument_queryFn be cfg collectionName (Some EmptyString) behavior w
  = (inr None, w).
Proof. done. Qed.

(** ** The mutations *)

Ltac mred :=
  cbv beta iota zeta
    delta [bind try_catch when ret call throw log addDoc updateDoc deleteDoc
           doc newDate getDocByMode getDoc getDocFrom emit resolveLog
           currentUserId store trace fst snd].

(* case analysis on an innermost scrutinee *)
Ltac step :=
  match goal with
  | |- context [match ?x with _ => _ end] =>
      lazymatch x with
      | context [match _ with _ => _ end] => fail
      | _ => destruct x; mred
      end
  end.

(* every failed addDoc of a short, explicit list is followed by its warning *)
Ltac solve_warned :=
  let H := fresh in
  intros ? ? ? H; simpl in H;
  repeat (destruct H as [H|H];
          [try discriminate H; injection H as ? ? ?; subst; reflexivity|]);
  destruct H.

Ltac trace_tail :=
  eexists; split; [rewrite <- ?app_assoc; reflexivity | solve_warned].

Section Mutations.

Context {St : Type} (be : Backend St).

(** What a create returns depends on beforeSave and on the write of
    the document, and on nothing else. *)
Lemma useAddDocument_result (cfg : UseFirebaseConfig) (c : string)
    (opts : option AddOptions) (data : Record) (w : World St) :
  fst (useAddDocument_mutationFn be cfg c opts data w)
  = match transform (opts ≫= add_beforeSave) data with
    | inl e => inl e
    | inr base =>
        match fst (be_addDoc be c (create_payload base) (store w)) with
        | inl e => inl e
        | inr ref =>
            inr (with_id (ref_id ref) (data_after (opts ≫= add_beforeSave) data))
        end
    end.
Proof.
  destruct w as [s tr].
  unfold useAddDocument_mutationFn, create_payload, transform, data_after,
    nowServerTimestamp.
  mred. destruct (opts ≫= add_beforeSave) as [f|]; mred.
  - destruct (f data) as [e|saved]; mred; [reflexivity|].
    repeat step; reflexivity.
  - cbn [returned_value argument_after]. repeat step; reflexivity.
Qed.

Lemma useAddDocument_trace (cfg : UseFirebaseConfig) (c : string)
    (opts : option AddOptions) (data : Record) (w : World St) :
  has_level cfg Warn = true ->
  exists l,
    trace (snd (useAddDocument_mutationFn be cfg c opts data w)) = trace w ++ l
    /\ (forall v, fst (useAddDocument_mutationFn be cfg c opts data w) = inr v ->
        failures_warned "log create failed" l).
Proof.
  intros Hw. destruct w as [s tr].
  unfold useAddDocument_mutationFn, nowServerTimestamp.
  mred. rewrite !Hw. repeat step.
  all: eexists; (split; [rewrite <- ?app_assoc; try reflexivity|]).
  all: try (rewrite app_nil_r; reflexivity).
  all: intros v Hv; try discriminate Hv; solve_warned.
Qed.

Lemma useUpdateDocument_result (cfg : UseFirebaseConfig) (c : string)
    (opts : option UpdateOptions) (data : Record) (w : World St) :
  fst (useUpdateDocument_mutationFn be cfg c opts data w)
  = match transform (opts ≫= upd_beforeSave) (delete "id" data) with
    | inl e => inl e
    | inr transformed =>
        match be_doc be c (get data "id") with
        | inl e => inl e
        | inr ref =>
            match fst (be_updateDoc be ref (update_payload transformed)
                         (store_before_update be cfg opts ref w)) with
            | inl e => inl e
            | inr _ => inr data
            end
        end
    end.
Proof.
  destruct w as [s tr].
  unfold useUpdateDocument_mutationFn, update_payload, transform,
    store_before_update, reads_previous, nowServerTimestamp.
  mred. repeat step; reflexivity.
Qed.

Lemma useUpdateDocument_trace (cfg : UseFirebaseConfig) (c : string)
    (opts : option UpdateOptions) (data : Record) (w : World St) :
  has_level cfg Warn = true ->
  exists l,
    trace (snd (useUpdateDocument_mutationFn be cfg c opts data w)) = trace w ++ l
    /\ failures_warned "log update failed" l.
Proof.
  intros Hw. destruct w as [s tr].
  unfold useUpdateDocument_mutationFn, nowServerTimestamp.
  mred. rewrite !Hw. repeat step.
  all: eexists; (split; [rewrite <- ?app_assoc; try reflexivity|]).
  all: try (rewrite app_nil_r; reflexivity).
  all: solve_warned.
Qed.

Lemma useDeleteDocument_result (cfg : UseFirebaseConfig) (c : string)
    (opts : option DeleteOptions) (id : string) (w : World St) :
  fst (useDeleteDocument_mutationFn be cfg c opts id w)
  = match be_doc be c (VStr id) with
    | inl e => inl e
    | inr ref =>
        match fst (be_deleteDoc be ref
                     (snd (be_getDoc be Combined ref (store w)))) with
        | inl e => inl e
        | inr _ => inr id
        end
    end.
Proof.
  destruct w as [s tr].
  unfold useDeleteDocument_mutationFn, nowServerTimestamp.
  mred. repeat step; reflexivity.
Qed.

Lemma useDeleteDocument_trace (cfg : UseFirebaseConfig) (c : string)
    (opts : option DeleteOptions) (id : string) (w : World St) :
  has_level cfg Warn = true ->
  exists l,
    trace (snd (useDeleteDocument_mutationFn be cfg c opts id w)) = trace w ++ l
    /\ failures_warned "log delete failed" l.
Proof.
  intros Hw. destruct w as [s tr].
  unfold useDeleteDocument_mutationFn, nowServerTimestamp.
  mred. rewrite !Hw. repeat step.
  all: eexists; (split; [rewrite <- ?app_assoc; try reflexivity|]).
  all: try (rewrite app_nil_r; reflexivity).
  all: solve_warned.
Qed.

End Mutations.

Lemma with_id_lookup (id : string) (data : Record) (k : string) :
  with_id id data !! k
  = match data !! k with
    | Some v => Some v
    | None => if decide (k = "id") then Some (VStr id) else None
    end.
Proof.
  unfold with_id. rewrite lookup_union.
  destruct (data !! k) as [v|]; simpl.
  - by destruct ({[ "id" := VStr id ]} !! k).
  - case_decide as Hk.
    + subst k. by rewrite lookup_singleton_eq.
    + by rewrite lookup_singleton_ne.
Qed.

(** C2, amended: a create returns, when beforeSave and the write succeed,
    the caller's input object as beforeSave left it (as it was given, when
    there is no beforeSave or beforeSave leaves its argument alone), with
    the identifier the store assigned under [id] unless the object has an
    [id] of its own: the object beforeSave returns and the two server
    timestamps are in the stored payload only, and a field of the result
    other than [id] is a field of the input object. *)
Theorem useAddDocument_returns_input {St : Type} (be : Backend St)
    (cfg : UseFirebaseConfig) (c : string) (opts : option AddOptions)
    (data : Record) (w : World St) :
  let beforeSave := opts ≫= add_beforeSave in
  fst (useAddDocument_mutationFn be cfg c opts data w)
  = match transform beforeSave data with
    | inl e => inl e
    | inr base =>
        match fst (be_addDoc be c (create_payload base) (store w)) with
        | inl e => inl e
        | inr ref => inr (with_id (ref_id ref) (data_after beforeSave data))
        end
    end
  /\ (forall id k,
        with_id id (data_after beforeSave data) !! k
        = match data_after beforeSave data !! k with
          | Some v => Some v
          | None => if decide (k = "id") then Some (VStr id) else None
          end)
  /\ (beforeSave = None -> data_after beforeSave data = data)
  /\ (forall f saved,
        beforeSave = Some f -> f data = inr saved ->
        transform beforeSave data = inr (returned_value saved)
        /\ data_after beforeSave data = argument_after saved).
Proof.
  cbv zeta. split; [apply useAddDocument_result|].
  split; [intros; apply with_id_lookup|]. split.
  - by intros ->.
  - intros f saved -> Hf. unfold transform, data_after. by rewrite Hf.
Qed.

(** C2 as stated fails on scenario B: with a beforeSave that returns a
    copy of the data with the title trimmed, the stored payload has the
    trimmed title, and the value returned has the title as the caller
    gave it. *)
Lemma useAddDocument_scenario_B :
  let run := useAddDocument_mutationFn (Demo.backend false) Demo.cfg "todos"
               (Demo.add_opts false) Demo.todo Demo.w0 in
  store_calls (trace (snd run))
  = [EAddDoc "todos"
       {[ "title" := VStr "Buy milk"; "completed" := VBool false;
          "createdAt" := VServerTimestamp; "updatedAt" := VServerTimestamp ]}
       (inr {| ref_collection := "todos"; ref_id := "new1" |})]
  /\ fst run
     = inr {[ "id" := VStr "new1"; "title" := VStr "  Buy milk  ";
              "completed" := VBool false ]}
  /\ fst run
     <> inr {[ "id" := VStr "new1"; "title" := VStr "Buy milk";
               "completed" := VBool false ]}.
Proof.
  intros run.
  assert (Hrun : fst run
                 = inr {[ "id" := VStr "new1"; "title" := VStr "  Buy milk  ";
                          "completed" := VBool false ]})
    by (vm_compute; reflexivity).
  split; [vm_compute; reflexivity|]. split; [exact Hrun|].
  rewrite Hrun. intros H.
  apply (f_equal (fun r : JsError + Record =>
                    match r with
                    | inr m => m !! "title"
                    | inl _ => None
                    end)) in H.
  vm_compute in H. discriminate H.
Qed.

(** With the trim done in place the value returned has the trimmed
    title, as the stored payload has. *)
Example useAddDocument_in_place :
  let run := useAddDocument_mutationFn (Demo.backend false) Demo.cfg "todos"
               Demo.add_opts_in_place Demo.todo Demo.w0 in
  store_calls (trace (snd run))
  = [EAddDoc "todos"
       {[ "title" := VStr "Buy milk"; "completed" := VBool false;
          "createdAt" := VServerTimestamp; "updatedAt" := VServerTimestamp ]}
       (inr {| ref_collection := "todos"; ref_id := "new1" |})]
  /\ fst run
     = inr {[ "id" := VStr "new1"; "title" := VStr "Buy milk";
              "completed" := VBool false ]}.
Proof. intros run. split; vm_compute; reflexivity. Qed.



(** C4: for a create, an update and a delete with audit logging on: two
    clients that differ only in how they answer the audit-log write (for a
    create, that also answer the write of the document alike) give the
    mutation the same result and the same error state, so a failed
    audit-log write leaves what a successful one leaves; and, when the
    logger has [warn], a failed audit-log write is followed in the trace
    by the warning that carries its error, which ends the run. *)
Theorem audit_log_failure_not_fatal {St : Type} (be1 be2 : Backend St)
    (cfg : UseFirebaseConfig) (c : string) (w : World St) :
  agree_outside_addDoc be1 be2 ->
  (forall opts data,
     (forall p, fst (be_addDoc be1 c p (store w)) = fst (be_addDoc be2 c p (store w))) ->
     fst (useAddDocument_mutationFn be1 cfg c opts data w)
     = fst (useAddDocument_mutationFn be2 cfg c opts data w))
  /\ (forall opts data,
        fst (useUpdateDocument_mutationFn be1 cfg c opts data w)
        = fst (useUpdateDocument_mutationFn be2 cfg c opts data w))
  /\ (forall opts id,
        fst (useDeleteDocument_mutationFn be1 cfg c opts id w)
        = fst (useDeleteDocument_mutationFn be2 cfg c opts id w))
  /\ (has_level cfg Warn = true ->
      (forall opts data v,
         fst (useAddDocument_mutationFn be1 cfg c opts data w) = inr v ->
         failures_warned "log create failed"
           (events_since w (snd (useAddDocument_mutationFn be1 cfg c opts data w))))
      /\ (forall opts data,
            failures_warned "log update failed"
              (events_since w (snd (useUpdateDocument_mutationFn be1 cfg c opts data w))))
      /\ (forall opts id,
            failures_warned "log delete failed"
              (events_since w (snd (useDeleteDocument_mutationFn be1 cfg c opts id w))))).
Proof.
  intros (Hget & Hupd & Hdel & Hdoc). split; [|split; [|split]].
  - intros opts data Hadd. rewrite !useAddDocument_result.
    destruct (transform _ _); [done|]. by rewrite Hadd.
  - intros opts data. rewrite !useUpdateDocument_result.
    unfold store_before_update. by rewrite Hget, Hupd, Hdoc.
  - intros opts id. rewrite !useDeleteDocument_result.
    by rewrite Hget, Hdel, Hdoc.
  - intros Hw. split; [|split].
    + intros opts data v Hv.
      destruct (useAddDocument_trace be1 cfg c opts data w Hw) as (l & Hl & Hwarned).
      rewrite (events_since_app _ _ _ Hl). by apply (Hwarned v).
    + intros opts data.
      destruct (useUpdateDocument_trace be1 cfg c opts data w Hw) as (l & Hl & Hwarned).
      by rewrite (events_since_app _ _ _ Hl).
    + intros opts id.
      destruct (useDeleteDocument_trace be1 cfg c opts id w Hw) as (l & Hl & Hwarned).
      by rewrite (events_since_app _ _ _ Hl).
Qed.

Lemma demo_agree : agree_outside_addDoc (Demo.backend true) (Demo.backend false).
Proof. repeat split. Qed.

(** On the demo client whose audit-log writes fail, next to the one
    whose audit-log writes succeed. *)
Lemma audit_log_failure_not_fatal_witness :
  agree_outside_addDoc (Demo.backend true) (Demo.backend false)
  /\ has_level Demo.cfg Warn = true
  /\ fst (useAddDocument_mutationFn (Demo.backend true) Demo.cfg "todos"
            (Demo.add_opts true) Demo.todo Demo.w0)
     = fst (useAddDocument_mutationFn (Demo.backend false) Demo.cfg "todos"
              (Demo.add_opts true) Demo.todo Demo.w0)
  /\ last (events_since Demo.w0
             (snd (useDeleteDocument_mutationFn (Demo.backend true) Demo.cfg "todos"
                     (Demo.del_opts true) "t1" Demo.w0)))
     = Some (warning "log delete failed" (Error "permission-denied")).
Proof.
  pose proof (audit_log_failure_not_fatal (Demo.backend true) (Demo.backend false)
                Demo.cfg "todos" Demo.w0 demo_agree)
    as (Hadd & _ & _ & Hwarned).
  destruct (Hwarned eq_refl) as (_ & _ & Hdel).
  split; [exact demo_agree|]. split; [reflexivity|]. split.
  - apply Hadd. intros p. reflexivity.
  - assert (Hin : exists col p,
               In (EAddDoc col p (inl (Error "permission-denied")))
                  (events_since Demo.w0
                     (snd (useDeleteDocument_mutationFn (Demo.backend true) Demo.cfg
                             "todos" (Demo.del_opts true) "t1" Demo.w0)))).
    { vm_compute. do 2 eexists. right. right. left. reflexivity. }
    destruct Hin as (col & p & Hin).
    exact (Hdel (Demo.del_opts true) "t1" col p _ Hin).
Defined.

(** The same runs, spelled out: the write of the audit log fails, the
    warning is logged, and the mutation returns its result. *)
Example delete_with_failing_audit_log :
  let run := useDeleteDocument_mutationFn (Demo.backend true) Demo.cfg "todos"
               (Demo.del_opts true) "t1" Demo.w0 in
  fst run = inr "t1"
  /\ map is_store_call (trace (snd run)) = [true; true; true; false]
  /\ last (trace (snd run))
     = Some (warning "log delete failed" (Error "permission-denied")).
Proof. vm_compute. repeat split. Qed.

(** * Further properties *)

(** ** Read statistics: isolation, round trips, composition *)

Lemma readCountKey_inj (c c' : string) : readCountKey c = readCountKey c' -> c = c'.
Proof. unfold readCountKey. apply (inj (String.app readCountPrefix)). Qed.

Lemma lastFetchedKey_inj (c c' : string) :
  lastFetchedKey c = lastFetchedKey c' -> c = c'.
Proof. unfold lastFetchedKey. apply (inj (String.app lastFetchedPrefix)). Qed.

Lemma stats_keys_apart (c c' : string) : readCountKey c <> lastFetchedKey c'.
Proof. unfold lastFetchedKey, readCountKey. discriminate. Qed.

(** What the two stats keys of another collection hold decides its stats. *)
Lemma getCollectionStats_ext (st st' : Storage) (c : string) :
  st' !! readCountKey c = st !! readCountKey c ->
  st' !! lastFetchedKey c = st !! lastFetchedKey c ->
  getCollectionStats (Some st') c = getCollectionStats (Some st) c.
Proof. unfold getCollectionStats, getItem. by intros -> ->. Qed.

Lemma recordReadStats_inv (now : string) (st : Storage) (c : string)
    (st' : option Storage) (r : option ReadStats) :
  recordReadStats now (Some st) c = Some (st', r) ->
  exists count,
    stored_count st c = Some count
    /\ st' = Some (<[lastFetchedKey c := now]>
                     (<[readCountKey c := JS.String (JS.add1 count)]> st))
    /\ r = Some {| updated := JS.add1 count |}.
Proof.
  intros H. destruct (stored_count st c) as [count|] eqn:E.
  - rewrite (recordReadStats_unfold now st c count E) in H.
    injection H as <- <-. eauto.
  - exfalso. revert H E. unfold recordReadStats, stored_count, getItem.
    destruct (st !! readCountKey c) as [s|]; simpl; [|discriminate].
    intros H E. by rewrite E in H.
Qed.

(* the keys a recorded read leaves alone *)
Lemma recordReadStats_keys (now : string) (st st' : Storage) (c : string)
    (r : option ReadStats) :
  recordReadStats now (Some st) c = Some (Some st', r) ->
  forall k, k <> readCountKey c -> k <> lastFetchedKey c -> st' !! k = st !! k.
Proof.
  intros H. apply recordReadStats_inv in H as (count & _ & Hst & _).
  injection Hst as ->. intros k H1 H2. by rewrite !lookup_insert_ne.
Qed.

(* the stats of a collection none of whose keys was touched *)
Lemma other_stats_kept (st st' : Storage) (c c' : string) :
  (forall k, k <> readCountKey c -> k <> lastFetchedKey c -> st' !! k = st !! k) ->
  c' <> c ->
  getCollectionStats (Some st') c' = getCollectionStats (Some st) c'.
Proof.
  intros Hframe Hc'. apply getCollectionStats_ext; apply Hframe.
  - intros E. by apply readCountKey_inj in E.
  - apply stats_keys_apart.
  - intros E. symmetry in E. by apply stats_keys_apart in E.
  - intros E. by apply lastFetchedKey_inj in E.
Qed.

(** X1: a read recorded for one collection leaves every key that is not
    one of that collection's two, and with them the stats of every other
    collection, as they were. *)
Theorem recordReadStats_isolated (now : string) (st st' : Storage) (c : string)
    (r : option ReadStats) :
  recordReadStats now (Some st) c = Some (Some st', r) ->
  (forall k, k <> readCountKey c -> k <> lastFetchedKey c -> st' !! k = st !! k)
  /\ (forall c', c' <> c ->
        getCollectionStats (Some st') c' = getCollectionStats (Some st) c').
Proof.
  intros H. split.
  - exact (recordReadStats_keys now st st' c r H).
  - intros c' Hc'. apply (other_stats_kept st st' c c'); [|exact Hc'].
    exact (recordReadStats_keys now st st' c r H).
Qed.

Lemma recordReadStats_isolated_witness :
  let st : Storage := {[ readCountKey "todos" := "7" ]} in
  let now := "2024-05-01T10:00:00.000Z" in
  let st' := <[lastFetchedKey "users" := now]> (<[readCountKey "users" := "1"]> st) in
  recordReadStats now (Some st) "users" = Some (Some st', Some {| updated := JInt 1 |})
  /\ getCollectionStats (Some st') "todos" = getCollectionStats (Some st) "todos".
Proof.
  intros st now st'.
  assert (H : recordReadStats now (Some st) "users"
              = Some (Some st', Some {| updated := JInt 1 |})).
  { apply recordReadStats_first. unfold st.
    apply lookup_singleton_ne. intros E. by apply readCountKey_inj in E. }
  split; [exact H|].
  apply (proj2 (recordReadStats_isolated now st st' "users" _ H)). discriminate.
Defined.

(* a read recorded on a count below 2^53 *)
Lemma recordReadStats_below (now : string) (st : Storage) (c : string) (n : N) :
  stored_count st c = Some (JInt n) ->
  (n < JS.max_safe)%N ->
  recordReadStats now (Some st) c
  = Some (Some (<[lastFetchedKey c := now]>
                  (<[readCountKey c := JS.String (JInt (n + 1))]> st)),
          Some {| updated := JInt (n + 1) |}).
Proof.
  intros H Hn.
  pose proof (recordReadStats_unfold now st c _ H) as Hrun.
  assert (Hadd : JS.add1 (JInt n) = JInt (n + 1))
    by (unfold JS.add1; by apply N.ltb_lt in Hn as ->).
  by rewrite Hadd in Hrun.
Qed.

(* the stats read from what a recorded read wrote *)
Lemma stats_after_record (now : string) (st : Storage) (c : string) (m : N) :
  (m <= JS.max_safe)%N ->
  getCollectionStats
    (Some (<[lastFetchedKey c := now]> (<[readCountKey c := JS.String (JInt m)]> st))) c
  = Some {| readCount := JInt m; lastFetched := Some now |}.
Proof.
  intros Hm.
  assert (Hcount : JS.Number (JS.String (JInt m)) = Some (JInt m))
    by (by apply JSFacts.Number_String).
  unfold getCollectionStats, getItem.
  rewrite (lookup_insert_ne _ (lastFetchedKey c) (readCountKey c))
    by apply stats_keys_differ.
  rewrite !lookup_insert_eq. cbv beta iota delta [from_option id].
  by rewrite Hcount.
Qed.

(** X2: after a read is recorded on a count [n] below [2^53], the stats
    read back are that count plus one and the time of the read. *)
Theorem recordReadStats_then_get (now : string) (st : Storage) (c : string) (n : N) :
  stored_count st c = Some (JInt n) ->
  (n < JS.max_safe)%N ->
  exists st',
    recordReadStats now (Some st) c = Some (Some st', Some {| updated := JInt (n + 1) |})
    /\ getCollectionStats (Some st') c
       = Some {| readCount := JInt (n + 1); lastFetched := Some now |}.
Proof.
  intros H Hn.
  exists (<[lastFetchedKey c := now]>
            (<[readCountKey c := JS.String (JInt (n + 1))]> st)).
  split.
  - by apply recordReadStats_below.
  - apply stats_after_record. lia.
Qed.

Lemma recordReadStats_then_get_witness :
  let st : Storage := {[ readCountKey "users" := "41" ]} in
  let now := "2024-05-01T10:00:00.000Z" in
  exists st',
    recordReadStats now (Some st) "users"
    = Some (Some st', Some {| updated := JInt 42 |})
    /\ getCollectionStats (Some st') "users"
       = Some {| readCount := JInt 42; lastFetched := Some now |}.
Proof.
  intros st now.
  apply (recordReadStats_then_get now st "users" 41).
  - unfold stored_count, getItem, st. rewrite lookup_singleton_eq.
    vm_compute. reflexivity.
  - reflexivity.
Defined.

Lemma add1_below (n : N) : (n < JS.max_safe)%N -> JS.add1 (JInt n) = JInt (n + 1).
Proof. intros Hn. unfold JS.add1. by apply N.ltb_lt in Hn as ->. Qed.

Lemma stored_count_after (now : string) (st : Storage) (c : string) (n : N) :
  (n <= JS.max_safe)%N ->
  stored_count (<[lastFetchedKey c := now]>
                  (<[readCountKey c := JS.String (JInt n)]> st)) c
  = Some (JInt n).
Proof.
  intros Hn. unfold stored_count, getItem.
  rewrite lookup_insert_ne by apply stats_keys_differ.
  rewrite lookup_insert_eq. by apply JSFacts.Number_String.
Qed.

Lemma recordReads_cons (now : string) (later : list string) (st st1 : Storage)
    (c : string) (r : option ReadStats) :
  recordReadStats now (Some st) c = Some (Some st1, r) ->
  recordReads (now :: later) st c = recordReads later st1 c.
Proof. intros H. cbn [recordReads]. by rewrite H. Qed.

(** X3: reads recorded one after the other on a count [n] add up: after
    them the stored count is [n] plus their number, as long as that stays
    within [2^53], and the stats of the other collections are as before. *)
Theorem recordReads_count (nows : list string) (st : Storage) (c : string) (n : N) :
  stored_count st c = Some (JInt n) ->
  (n + N.of_nat (length nows) <= JS.max_safe)%N ->
  exists st',
    recordReads nows st c = Some st'
    /\ stored_count st' c = Some (JInt (n + N.of_nat (length nows)))
    /\ (forall c', c' <> c ->
          getCollectionStats (Some st') c' = getCollectionStats (Some st) c').
Proof.
  revert st n. induction nows as [|now later IH]; intros st n H Hn.
  - exists st. simpl. rewrite N.add_0_r. done.
  - simpl length in *. rewrite Nat2N.inj_succ in *.
    pose proof (recordReadStats_unfold now st c _ H) as Hrun.
    rewrite add1_below in Hrun by lia.
    set (st1 := <[lastFetchedKey c := now]>
                  (<[readCountKey c := JS.String (JInt (n + 1))]> st)) in *.
    destruct (IH st1 (n + 1)%N) as (st' & Hrest & Hcount & Hother).
    { apply stored_count_after. lia. }
    { lia. }
    exists st'. split; [|split].
    + by rewrite (recordReads_cons now later st st1 c _ Hrun).
    + rewrite Hcount. do 2 f_equal. lia.
    + intros c' Hc'. rewrite (Hother c' Hc').
      exact (other_stats_kept st st1 c c' (recordReadStats_keys now st st1 c _ Hrun) Hc').
Qed.

Lemma recordReads_count_witness :
  let st : Storage := {[ readCountKey "users" := "40" ]} in
  exists st',
    recordReads ["2024-05-01T10:00:00.000Z"; "2024-05-01T10:05:00.000Z"] st "users"
    = Some st'
    /\ stored_count st' "users" = Some (JInt 42).
Proof.
  intros st.
  destruct (recordReads_count
              ["2024-05-01T10:00:00.000Z"; "2024-05-01T10:05:00.000Z"]
              st "users" 40) as (st' & H1 & H2 & _).
  - unfold stored_count, getItem, st. rewrite lookup_singleton_eq.
    vm_compute. reflexivity.
  - vm_compute. discriminate.
  - exists st'. split; [exact H1 | exact H2].
Defined.

(** X4: recording a read for a collection that has no stats and then
    clearing the stats of that collection gives the storage back. *)
Theorem recordRead_then_clear (now : string) (st : Storage) (c : string) :
  st !! readCountKey c = None ->
  st !! lastFetchedKey c = None ->
  exists st',
    recordReadStats now (Some st) c = Some (Some st', Some {| updated := JInt 1 |})
    /\ clearCollectionStats (Some st') c = Some st.
Proof.
  intros Hr Hl. eexists. split; [by apply recordReadStats_first|].
  unfold clearCollectionStats, removeItem. f_equal.
  rewrite (delete_insert_ne _ (readCountKey c) (lastFetchedKey c))
    by apply stats_keys_apart.
  rewrite delete_insert_eq, delete_insert_eq.
  rewrite delete_id; [by apply delete_id|].
  by rewrite lookup_delete_ne by apply stats_keys_apart.
Qed.

Lemma recordRead_then_clear_witness :
  let st : Storage := {[ "theme" := "dark" ]} in
  exists st',
    recordReadStats "2024-05-01T10:00:00.000Z" (Some st) "users"
    = Some (Some st', Some {| updated := JInt 1 |})
    /\ clearCollectionStats (Some st') "users" = Some st.
Proof.
  intros st.
  apply (recordRead_then_clear "2024-05-01T10:00:00.000Z" st "users");
    unfold st; apply lookup_singleton_ne; discriminate.
Defined.

(** X5: clearStats touches the two keys of its collection only: every
    other key keeps its value, the stats of every other collection are as
    before, and at most two keys are gone. *)
Theorem clearCollectionStats_isolated (st : Storage) (c : string) :
  exists st',
    clearCollectionStats (Some st) c = Some st'
    /\ (forall k, st' !! k
                  = if decide (k = readCountKey c \/ k = lastFetchedKey c)
                    then None else st !! k)
    /\ (forall c', c' <> c ->
          getCollectionStats (Some st') c' = getCollectionStats (Some st) c')
    /\ size st <= size st' + 2.
Proof.
  eexists. split; [reflexivity|].
  assert (Hlook : forall k,
            removeItem (lastFetchedKey c) (removeItem (readCountKey c) st) !! k
            = if decide (k = readCountKey c \/ k = lastFetchedKey c)
              then None else st !! k).
  { intros k. unfold removeItem. rewrite !lookup_delete.
    repeat case_decide; try done; exfalso; intuition congruence. }
  split; [exact Hlook|]. split.
  - intros c' Hc'. apply getCollectionStats_ext; rewrite Hlook.
    + rewrite decide_False; [done|]. intros [E|E].
      * by apply readCountKey_inj in E.
      * by apply stats_keys_apart in E.
    + rewrite decide_False; [done|]. intros [E|E].
      * symmetry in E. by apply stats_keys_apart in E.
      * by apply lastFetchedKey_inj in E.
  - unfold removeItem. rewrite !map_size_delete.
    repeat case_match; unfold id; lia.
Qed.

(** *** clearAllStats, again *)

Lemma readCountKey_is_stats_key (c : string) : is_stats_key (readCountKey c) = true.
Proof. destruct c; vm_compute; reflexivity. Qed.

Lemma lastFetchedKey_is_stats_key (c : string) :
  is_stats_key (lastFetchedKey c) = true.
Proof. destruct c; vm_compute; reflexivity. Qed.

(* the storage and the count clearAllStats leaves, by lookups and sizes *)
Lemma clearAll_spec (st : Storage) :
  exists (st' : Storage) (n : nat),
    clearAllCollectionStats (Some st) = (Some st', {| removed := n |})
    /\ (forall k, st' !! k = if is_stats_key k then None else st !! k)
    /\ size st' + n = size st.
Proof.
  eexists _, _. split; [reflexivity|].
  rewrite toRemove_spec. split.
  - intros k. rewrite lookup_remove_all.
    destruct (is_stats_key k) eqn:E.
    + case_decide as Hin; [done|].
      destruct (st !! k) as [v|] eqn:Hv; [|done].
      exfalso. apply Hin, list_elem_of_filter. split; [by apply Is_true_true|].
      apply stored_keys_lookup. eauto.
    + rewrite decide_False; [done|].
      intros [H _]%list_elem_of_filter. apply Is_true_true in H. congruence.
  - apply size_remove_all.
    + apply NoDup_filter, NoDup_fst_map_to_list.
    + intros k [_ Hin]%list_elem_of_filter. by apply stored_keys_lookup.
Qed.

(** X6: after clearAllStats the stats of every collection read
    {readCount: 0, lastFetched: null}. *)
Theorem clearAll_then_get (st : Storage) (c : string) :
  exists st' r,
    clearAllCollectionStats (Some st) = (Some st', r)
    /\ getCollectionStats (Some st') c
       = Some {| readCount := JInt 0; lastFetched := None |}.
Proof.
  destruct (clearAll_spec st) as (st' & n & Hrun & Hlook & _).
  exists st', {| removed := n |}. split; [exact Hrun|].
  unfold getCollectionStats, getItem.
  rewrite !Hlook, readCountKey_is_stats_key, lastFetchedKey_is_stats_key.
  reflexivity.
Qed.

(** X7: clearAllStats is idempotent: run on what it left, it removes
    nothing and leaves the same storage; and on a storage without stats
    keys it removes nothing in the first place. *)
Theorem clearAll_idempotent (st : Storage) :
  exists st' n,
    clearAllCollectionStats (Some st) = (Some st', {| removed := n |})
    /\ clearAllCollectionStats (Some st') = (Some st', {| removed := 0 |})
    /\ ((forall k, is_stats_key k = true -> st !! k = None) -> st' = st /\ n = 0).
Proof.
  destruct (clearAll_spec st) as (st' & n & Hrun & Hlook & Hsize).
  exists st', n. split; [exact Hrun|]. split.
  - destruct (clearAll_spec st') as (st'' & n' & Hrun' & Hlook' & Hsize').
    assert (Heq : st'' = st').
    { apply map_eq. intros k. rewrite Hlook', Hlook.
      by destruct (is_stats_key k). }
    subst st''. rewrite Hrun'. do 2 f_equal. lia.
  - intros Hnone.
    assert (Heq : st' = st).
    { apply map_eq. intros k. rewrite Hlook.
      destruct (is_stats_key k) eqn:E; [|done]. symmetry. by apply Hnone. }
    subst st'. split; [done | lia].
Qed.

(** X8: on a storage without stats keys, recording a read and then
    clearing all stats removes the two keys of the read and gives the
    storage back. *)
Theorem recordRead_then_clearAll (now : string) (st : Storage) (c : string) :
  (forall k, is_stats_key k = true -> st !! k = None) ->
  exists st',
    recordReadStats now (Some st) c = Some (Some st', Some {| updated := JInt 1 |})
    /\ clearAllCollectionStats (Some st') = (Some st, {| removed := 2 |}).
Proof.
  intros Hnone.
  pose proof (Hnone _ (readCountKey_is_stats_key c)) as Hr.
  pose proof (Hnone _ (lastFetchedKey_is_stats_key c)) as Hl.
  eexists. split; [by apply recordReadStats_first|].
  set (st1 := <[lastFetchedKey c := now]> (<[readCountKey c := "1"]> st)).
  destruct (clearAll_spec st1) as (st' & n & Hrun & Hlook & Hsize).
  assert (Heq : st' = st).
  { apply map_eq. intros k. rewrite Hlook.
    destruct (is_stats_key k) eqn:E; [symmetry; by apply Hnone|].
    unfold st1. rewrite !lookup_insert_ne; [done| |]; intros <-.
    - by rewrite readCountKey_is_stats_key in E.
    - by rewrite lastFetchedKey_is_stats_key in E. }
  subst st'. rewrite Hrun. do 2 f_equal.
  assert (size st1 = S (S (size st))); [|lia].
  unfold st1. rewrite map_size_insert_None.
  - by rewrite map_size_insert_None.
  - by rewrite lookup_insert_ne by apply stats_keys_apart.
Qed.

Lemma recordRead_then_clearAll_witness :
  let st : Storage := {[ "theme" := "dark" ]} in
  exists st',
    recordReadStats "2024-05-01T10:00:00.000Z" (Some st) "users"
    = Some (Some st', Some {| updated := JInt 1 |})
    /\ clearAllCollectionStats (Some st') = (Some st, {| removed := 2 |}).
Proof.
  intros st.
  apply (recordRead_then_clearAll "2024-05-01T10:00:00.000Z" st "users").
  intros k Hk. unfold st. apply lookup_singleton_None. intros <-.
  vm_compute in Hk. discriminate Hk.
Defined.

(** ** The in-memory fallback is a storage *)

Lemma Mem_get_lookup (m : Mem.t) (k : string) :
  Mem.to_storage m !! k = Mem.get k m.
Proof.
  unfold Mem.to_storage. induction m as [|[k' v] r IH]; simpl; [done|].
  destruct (String.eqb_spec k' k) as [->|Hne].
  - by rewrite lookup_insert_eq.
  - by rewrite lookup_insert_ne.
Qed.

Lemma Mem_getItem_get (m : Mem.t) (k : string) : Mem.getItem m k = Mem.get k m.
Proof. unfold Mem.getItem, Mem.has. by destruct (Mem.get k m). Qed.

Lemma Mem_get_None (m : Mem.t) (k : string) :
  k ∉ Mem.keys m -> Mem.get k m = None.
Proof.
  induction m as [|[k' v] r IH]; simpl; [done|].
  intros Hk. apply not_elem_of_cons in Hk as [Hne Hk].
  destruct (String.eqb_spec k' k); [congruence | by apply IH].
Qed.

Lemma Mem_set_storage (k v : string) (m : Mem.t) :
  Mem.to_storage (Mem.set k v m) = <[k := v]> (Mem.to_storage m).
Proof.
  unfold Mem.to_storage. induction m as [|[k' v'] r IH]; simpl; [done|].
  destruct (String.eqb_spec k' k) as [->|Hne]; simpl.
  - by rewrite insert_insert_eq.
  - rewrite IH. by apply insert_insert_ne.
Qed.

Lemma Mem_set_keys (k v : string) (m : Mem.t) :
  Mem.keys (Mem.set k v m)
  = if Mem.has k m then Mem.keys m else Mem.keys m ++ [k].
Proof.
  unfold Mem.has. induction m as [|[k' v'] r IH]; simpl; [done|].
  destruct (String.eqb_spec k' k) as [->|Hne]; simpl; [done|].
  rewrite IH. by destruct (Mem.get k r).
Qed.

Lemma Mem_delete_keys (k : string) (m : Mem.t) :
  forall k', k' ∈ Mem.keys (Mem.delete k m) -> k' ∈ Mem.keys m.
Proof.
  induction m as [|[k1 v1] r IH]; simpl; [done|]. intros k'.
  destruct (String.eqb_spec k1 k) as [->|Hne]; simpl.
  - intros H. by right.
  - intros [->|H]%elem_of_cons; [by left | right; by apply IH].
Qed.

Lemma Mem_delete_NoDup (k : string) (m : Mem.t) :
  NoDup (Mem.keys m) -> NoDup (Mem.keys (Mem.delete k m)).
Proof.
  induction m as [|[k1 v1] r IH]; simpl; [done|].
  intros [Hk1 Hr]%NoDup_cons.
  destruct (String.eqb_spec k1 k) as [->|Hne]; simpl; [done|].
  apply NoDup_cons. split; [|by apply IH].
  intros H. by apply Hk1, (Mem_delete_keys k r).
Qed.

Lemma Mem_delete_storage (k : string) (m : Mem.t) :
  NoDup (Mem.keys m) ->
  Mem.to_storage (Mem.delete k m) = delete k (Mem.to_storage m).
Proof.
  unfold Mem.to_storage. induction m as [|[k1 v1] r IH]; simpl.
  - intros _. by rewrite delete_empty.
  - intros [Hk1 Hr]%NoDup_cons.
    destruct (String.eqb_spec k1 k) as [->|Hne]; simpl.
    + rewrite delete_insert_eq, delete_id; [done|].
      fold (Mem.to_storage r). rewrite Mem_get_lookup. by apply Mem_get_None.
    + rewrite IH by done. by rewrite delete_insert_ne by congruence.
Qed.

Lemma Mem_has_elem (k : string) (m : Mem.t) :
  Mem.has k m = true <-> k ∈ Mem.keys m.
Proof.
  unfold Mem.has. induction m as [|[k1 v1] r IH]; simpl.
  - split; [done | by intros ?%elem_of_nil].
  - destruct (String.eqb_spec k1 k) as [->|Hne].
    + split; [by left | done].
    + rewrite IH. split; [by right|].
      intros [?|?]%elem_of_cons; [congruence | done].
Qed.

(** X9: the object safeStorage builds over a Map is a storage: on a map
    without repeated keys (a Map has none, and setItem and removeItem keep
    it so) getItem, setItem, removeItem and length do what they do on the
    storage state the map stands for, and key enumerates the same keys. *)
Theorem Mem_refines_storage (m : Mem.t) :
  NoDup (Mem.keys m) ->
  (forall k, Mem.getItem m k = getItem (Mem.to_storage m) k)
  /\ (forall k v,
        Mem.to_storage (Mem.setItem k v m) = setItem k v (Mem.to_storage m)
        /\ NoDup (Mem.keys (Mem.setItem k v m)))
  /\ (forall k,
        Mem.to_storage (Mem.removeItem k m) = removeItem k (Mem.to_storage m)
        /\ NoDup (Mem.keys (Mem.removeItem k m)))
  /\ Mem.length m = storage_length (Mem.to_storage m)
  /\ (forall k, (exists i, Mem.key m i = Some k)
                <-> (exists i, key (Mem.to_storage m) i = Some k)).
Proof.
  intros Hnd. split; [|split; [|split; [|split]]].
  - intros k. unfold getItem. by rewrite Mem_getItem_get, Mem_get_lookup.
  - intros k v. split; [apply Mem_set_storage|].
    unfold Mem.setItem. rewrite Mem_set_keys.
    destruct (Mem.has k m) eqn:E; [done|].
    apply NoDup_app. split; [done|]. split; [|apply NoDup_singleton].
    intros k' Hk' ->%list_elem_of_singleton.
    apply Mem_has_elem in Hk'. congruence.
  - intros k. split; [by apply Mem_delete_storage | by apply Mem_delete_NoDup].
  - unfold Mem.length, Mem.size, storage_length, Mem.to_storage.
    by rewrite map_size_list_to_map.
  - intros k. unfold Mem.key, key. rewrite <- !list_elem_of_lookup.
    rewrite stored_keys_lookup, Mem_get_lookup, <- Mem_has_elem.
    unfold Mem.has. destruct (Mem.get k m); split; done.
Qed.

Lemma Mem_refines_storage_witness :
  let m : Mem.t := [("a", "1"); ("b", "2")] in
  Mem.to_storage (Mem.setItem "a" "3" m) = setItem "a" "3" (Mem.to_storage m)
  /\ Mem.length m = storage_length (Mem.to_storage m).
Proof.
  intros m.
  assert (Hnd : NoDup (Mem.keys m)).
  { unfold m. simpl. apply NoDup_cons. split; [|apply NoDup_singleton].
    intros H%list_elem_of_singleton. discriminate H. }
  destruct (Mem_refines_storage m Hnd) as (_ & Hset & _ & Hlen & _).
  split; [apply Hset | exact Hlen].
Defined.

(** ** The storage behind the hooks and the exported helpers *)

Lemma clearAll_empty :
  clearAllCollectionStats (Some ∅) = (Some ∅, {| removed := 0 |}).
Proof.
  destruct (clearAll_spec ∅) as (st' & n & Hrun & Hlook & Hsize).
  assert (Heq : st' = ∅).
  { apply map_eq. intros k. rewrite Hlook, lookup_empty.
    by destruct (is_stats_key k). }
  subst st'. rewrite Hrun. do 2 f_equal. lia.
Qed.

(** X10: with no adapter in the configuration and no usable localStorage
    every call resolves to a new, empty in-memory storage: each recorded
    read is counted as the first, nothing of it stays, and the exported
    helpers, called without a storage of their own, always see a storage
    without stats. *)
Theorem fallback_keeps_nothing (now : string) (env : StorageEnv) (c : string) :
  env_custom env = None ->
  (forall st, env_platform env <> LocalStorageAt st) ->
  resolve env = Some (InMemory [])
  /\ useCollection_recordRead now env c = Some (env, Some {| updated := JInt 1 |})
  /\ exported_getCollectionStats c None (env_platform env)
     = Some {| readCount := JInt 0; lastFetched := None |}
  /\ exported_clearCollectionStats c None (env_platform env) = env
  /\ exported_clearAllCollectionStats None (env_platform env)
     = (env, {| removed := 0 |}).
Proof.
  intros Hc Hp.
  assert (Hres : resolve env = Some (InMemory [])).
  { unfold resolve, safeStorage. rewrite Hc.
    destruct (env_platform env) as [| |st]; try done. by destruct (Hp st). }
  split; [exact Hres|].
  unfold useCollection_recordRead, exported_getCollectionStats,
    exported_clearCollectionStats, exported_clearAllCollectionStats.
  rewrite Hres. unfold resolve in Hres. rewrite Hc in Hres. rewrite Hres.
  change (storage_state <$> Some (InMemory [])) with (Some (∅ : Storage)).
  assert (Henv : {| env_custom := None; env_platform := env_platform env |} = env)
    by (destruct env; simpl in *; by subst).
  split; [|split; [|split]].
  - rewrite (recordReadStats_first now ∅ c) by apply lookup_empty. done.
  - done.
  - cbn. exact Henv.
  - rewrite clearAll_empty. cbn. by rewrite Henv.
Qed.

Lemma fallback_keeps_nothing_witness :
  let env := {| env_custom := None;
                env_platform := LocalStorageThrows (Error "SecurityError") |} in
  useCollection_recordRead "2024-05-01T10:00:00.000Z" env "users"
  = Some (env, Some {| updated := JInt 1 |})
  /\ exported_getCollectionStats "users" None (env_platform env)
     = Some {| readCount := JInt 0; lastFetched := None |}.
Proof.
  intros env.
  destruct (fallback_keeps_nothing "2024-05-01T10:00:00.000Z" env "users")
    as (_ & H1 & H2 & _); [reflexivity | discriminate |].
  split; [exact H1 | exact H2].
Defined.

(** X11: with an adapter in the configuration, or else with a usable
    localStorage, a recorded read lands in that storage, and the exported
    getCollectionStats reads it back when it is handed that storage: the
    adapter as its storage argument, or no argument when there is no
    adapter.  The adapter comes first and the localStorage is then left
    alone: the helper called without its storage argument, which reads the
    localStorage, then reads what it read before. *)
Theorem configured_storage_persists (now : string) (env : StorageEnv)
    (c : string) (st : Storage) (n : N) :
  resolve env = Some (CustomStorage st) \/ resolve env = Some (WindowLocalStorage st) ->
  stored_count st c = Some (JInt n) ->
  (n < JS.max_safe)%N ->
  exists env',
    useCollection_recordRead now env c = Some (env', Some {| updated := JInt (n + 1) |})
    /\ exported_getCollectionStats c (env_custom env') (env_platform env')
       = Some {| readCount := JInt (n + 1); lastFetched := Some now |}
    /\ (env_custom env = None ->
        exported_getCollectionStats c None (env_platform env')
        = Some {| readCount := JInt (n + 1); lastFetched := Some now |})
    /\ (is_Some (env_custom env) ->
        env_platform env' = env_platform env
        /\ exported_getCollectionStats c None (env_platform env')
           = exported_getCollectionStats c None (env_platform env)).
Proof.
  intros Hres Hcount Hn.
  pose proof (recordReadStats_below now st c n Hcount Hn) as Hrun.
  assert (Hget := stats_after_record now st c (n + 1) ltac:(lia)).
  unfold useCollection_recordRead, exported_getCollectionStats.
  destruct Hres as [Hres|Hres]; rewrite Hres.
  - change (storage_state <$> Some (CustomStorage st)) with (Some st).
    rewrite Hrun. eexists. split; [reflexivity|].
    cbn [commit write_through env_custom env_platform safeStorage].
    split; [exact Hget|]. split; [|done].
    intros Hnone. unfold resolve, safeStorage in Hres. rewrite Hnone in Hres.
    by destruct (env_platform env).
  - change (storage_state <$> Some (WindowLocalStorage st)) with (Some st).
    rewrite Hrun. eexists. split; [reflexivity|].
    cbn [commit write_through env_custom env_platform].
    assert (Hnone : env_custom env = None).
    { unfold resolve, safeStorage in Hres. by destruct (env_custom env). }
    rewrite Hnone. cbn [safeStorage].
    split; [exact Hget|]. split; [intros _; exact Hget|].
    intros [x Hx]. by rewrite Hx in Hnone.
Qed.

Lemma configured_storage_persists_witness :
  let st : Storage := {[ readCountKey "users" := "41" ]} in
  let env := {| env_custom := Some st; env_platform := LocalStorageAt ∅ |} in
  let now := "2024-05-01T10:00:00.000Z" in
  exists env',
    useCollection_recordRead now env "users"
    = Some (env', Some {| updated := JInt 42 |})
    /\ exported_getCollectionStats "users" (env_custom env') (env_platform env')
       = Some {| readCount := JInt 42; lastFetched := Some now |}
    /\ exported_getCollectionStats "users" None (env_platform env')
       = Some {| readCount := JInt 0; lastFetched := None |}.
Proof.
  intros st env now.
  destruct (configured_storage_persists now env "users" st 41)
    as (env' & H1 & H2 & _ & H3).
  - left. reflexivity.
  - unfold stored_count, getItem, st. rewrite lookup_singleton_eq.
    vm_compute. reflexivity.
  - reflexivity.
  - exists env'. split; [exact H1|]. split; [exact H2|].
    destruct H3 as [_ ->]; [by eexists|]. reflexivity.
Defined.

(** ** What the hooks call: a small logic of appended events *)

Section Emits.

Context {St : Type} (be : Backend St).

Lemma pure_ret {A} (a : A) : pure_of (ret a : M St A) (inr a).
Proof. done. Qed.

Lemma pure_call {A} (r : JsError + A) : pure_of (call r : M St A) r.
Proof. done. Qed.

Lemma pure_doc (c : string) (id : Value) : pure_of (doc be c id) (be_doc be c id).
Proof. done. Qed.

Lemma pure_resolveLog (cfg : UseFirebaseConfig) (c : string) :
  pure_of (resolveLog cfg c : M St string) (resolveLogName cfg c).
Proof.
  unfold resolveLog, resolveLogName.
  by destruct (logging cfg ≫= resolveLogCollection).
Qed.

Lemma pure_currentUserId (cfg : UseFirebaseConfig) :
  exists r, pure_of (currentUserId cfg : M St (option string)) r.
Proof. unfold currentUserId. destruct (getUserId cfg); eexists; done. Qed.

Lemma pure_transform (f : option BeforeSave) (data : Record) :
  pure_of (match f with
           | Some f => saved <- call (f data) ;; ret (returned_value saved)
           | None => ret data
           end : M St Record)
          (transform f data).
Proof.
  destruct f as [f|]; [|done]. intros w.
  unfold bind, call, ret, transform. by destruct (f data).
Qed.

Lemma pure_saved_by (f : option BeforeSave) (data : Record) :
  pure_of (match f with
           | Some f => call (f data)
           | None => ret {| returned_value := data; argument_after := data |}
           end : M St Saved)
          (saved_by f data).
Proof. by destruct f. Qed.

Lemma transform_saved (f : option BeforeSave) (data base : Record) :
  transform f data = inr base ->
  exists saved,
    saved_by f data = inr saved
    /\ returned_value saved = base
    /\ argument_after saved = data_after f data.
Proof.
  unfold transform, saved_by, data_after. destruct f as [f|].
  - destruct (f data) as [e|saved]; [discriminate|].
    intros [= <-]. by exists saved.
  - intros [= <-]. by eexists.
Qed.

Lemma transform_thrown (f : option BeforeSave) (data : Record) (e : JsError) :
  transform f data = inl e -> saved_by f data = inl e.
Proof.
  unfold transform, saved_by. destruct f as [f|]; [|discriminate].
  destruct (f data); [congruence | discriminate].
Qed.

Lemma emits_nothing {A} (P : Event -> Prop) (m : M St A) :
  (forall w, trace (snd (m w)) = trace w) -> emits P m.
Proof. intros H w. exists []. by rewrite H, app_nil_r. Qed.

Lemma emits_pure {A} (P : Event -> Prop) (m : M St A) (r : JsError + A) :
  pure_of m r -> emits P m.
Proof. intros H. apply emits_nothing. intros w. by rewrite H. Qed.

Lemma emits_currentUserId (P : Event -> Prop) (cfg : UseFirebaseConfig) :
  emits P (currentUserId cfg : M St (option string)).
Proof.
  destruct (pure_currentUserId cfg) as [r H]. by apply (emits_pure P _ r).
Qed.

Lemma emits_ret {A} (P : Event -> Prop) (a : A) : emits P (ret a : M St A).
Proof. by apply emits_nothing. Qed.

Lemma emits_bind {A B} (P : Event -> Prop) (m : M St A) (k : A -> M St B) :
  emits P m -> (forall a, emits P (k a)) -> emits P (bind m k).
Proof.
  intros Hm Hk w. unfold bind.
  destruct (Hm w) as (l1 & E1 & F1).
  destruct (m w) as [[e|a] w1]; simpl in *; [by exists l1|].
  destruct (Hk a w1) as (l2 & E2 & F2).
  exists (l1 ++ l2). rewrite E2, E1, app_assoc. split; [done|].
  by apply Forall_app.
Qed.

(** After a step that leaves the world alone, what follows knows the
    value the step gave. *)
Lemma emits_bind_pure {A B} (P : Event -> Prop) (m : M St A) (r : JsError + A)
    (k : A -> M St B) :
  pure_of m r -> (forall a, r = inr a -> emits P (k a)) -> emits P (bind m k).
Proof.
  intros Hm Hk w. unfold bind. rewrite Hm.
  destruct r as [e|a]; [exists []; by rewrite app_nil_r|].
  by apply Hk.
Qed.

Lemma emits_try_catch {A} (P : Event -> Prop) (body : M St A)
    (handler : JsError -> M St A) :
  emits P body -> (forall e, emits P (handler e)) -> emits P (try_catch body handler).
Proof.
  intros Hm Hk w. unfold try_catch.
  destruct (Hm w) as (l1 & E1 & F1).
  destruct (body w) as [[e|a] w1]; simpl in *; [|by exists l1].
  destruct (Hk e w1) as (l2 & E2 & F2).
  exists (l1 ++ l2). rewrite E2, E1, app_assoc. split; [done|].
  by apply Forall_app.
Qed.

Lemma emits_when (P : Event -> Prop) (b : bool) (m : M St unit) :
  emits P m -> emits P (when b m).
Proof. destruct b; [done|]. intros _. apply emits_ret. Qed.

Lemma emits_one {A} (P : Event -> Prop) (m : M St A) :
  (forall w, exists ev, trace (snd (m w)) = trace w ++ [ev] /\ P ev) -> emits P m.
Proof.
  intros H w. destruct (H w) as (ev & E & Hev). exists [ev]. split; [done|].
  by apply Forall_singleton.
Qed.

Lemma emits_log (P : Event -> Prop) (cfg : UseFirebaseConfig) (lvl : Level)
    (msg : list Part) (arg : LogArg) :
  P (ELog lvl msg arg) -> emits P (log cfg lvl msg arg : M St unit).
Proof.
  intros HP w. unfold log, emit. simpl.
  destruct (has_level cfg lvl); simpl.
  - exists [ELog lvl msg arg]. split; [done | by apply Forall_singleton].
  - exists []. by rewrite app_nil_r.
Qed.

Lemma emits_getDocsFrom (P : Event -> Prop) (src : Source) (q : Query) :
  (forall r, P (EGetDocs src q r)) -> emits P (getDocsFrom be src q).
Proof.
  intros HP. apply emits_one. intros w. rewrite getDocsFrom_run. simpl. eauto.
Qed.

Lemma emits_getDocFrom (P : Event -> Prop) (src : Source) (ref : DocRef) :
  (forall r, P (EGetDoc src ref r)) -> emits P (getDocFrom be src ref).
Proof.
  intros HP. apply emits_one. intros w. rewrite getDocFrom_run. simpl. eauto.
Qed.

Lemma emits_addDoc (P : Event -> Prop) (c : string) (p : Record) :
  (forall r, P (EAddDoc c p r)) -> emits P (addDoc be c p).
Proof.
  intros HP. apply emits_one. intros w. unfold addDoc, emit.
  destruct (be_addDoc be c p (store w)). simpl. eauto.
Qed.

Lemma emits_updateDoc (P : Event -> Prop) (ref : DocRef) (p : Record) :
  (forall r, P (EUpdateDoc ref p r)) -> emits P (updateDoc be ref p).
Proof.
  intros HP. apply emits_one. intros w. unfold updateDoc, emit.
  destruct (be_updateDoc be ref p (store w)). simpl. eauto.
Qed.

Lemma emits_deleteDoc (P : Event -> Prop) (ref : DocRef) :
  (forall r, P (EDeleteDoc ref r)) -> emits P (deleteDoc be ref).
Proof.
  intros HP. apply emits_one. intros w. unfold deleteDoc, emit.
  destruct (be_deleteDoc be ref (store w)). simpl. eauto.
Qed.

Lemma emits_newDate (P : Event -> Prop) : emits P (newDate be).
Proof.
  apply emits_nothing. intros w. unfold newDate.
  by destruct (be_newDate be (store w)).
Qed.

Lemma emits_performanceNow (P : Event -> Prop) : emits P (performanceNow be).
Proof.
  apply emits_nothing. intros w. unfold performanceNow.
  by destruct (be_performanceNow be (store w)).
Qed.

Lemma emits_getDocsByMode (P : Event -> Prop) (q : Query) (mode : PreferCacheMode) :
  (forall src r, P (EGetDocs src q r)) -> emits P (getDocsByMode be q mode).
Proof.
  intros HP. destruct mode; simpl;
    unfold getDocs, getDocsFromCache, getDocsFromServer;
    try (by apply emits_getDocsFrom).
  apply emits_bind.
  - apply emits_try_catch; [|intros; apply emits_ret].
    apply emits_bind; [by apply emits_getDocsFrom|].
    intros snap. destruct (negb (qs_empty snap)); apply emits_ret.
  - intros [snap|]; [apply emits_ret | by apply emits_getDocsFrom].
Qed.

Lemma emits_getDocByMode (P : Event -> Prop) (ref : DocRef) (mode : PreferCacheMode) :
  (forall src r, P (EGetDoc src ref r)) -> emits P (getDocByMode be ref mode).
Proof.
  intros HP. destruct mode; simpl;
    unfold getDoc, getDocFromCache, getDocFromServer;
    try (by apply emits_getDocFrom).
  apply emits_bind.
  - apply emits_try_catch; [|intros; apply emits_ret].
    apply emits_bind; [by apply emits_getDocFrom|].
    intros snap. destruct (snap_exists snap); apply emits_ret.
  - intros [snap|]; [apply emits_ret | by apply emits_getDocFrom].
Qed.

End Emits.

(* One step of the search for [emits P m], along the syntax of [m]. *)
Ltac emits_step :=
  lazymatch goal with
  | |- emits _ (bind (doc _ _ _) _) =>
      eapply emits_bind_pure; [apply pure_doc | intros ? ?]
  | |- emits _ (bind (resolveLog _ _) _) =>
      eapply emits_bind_pure; [apply pure_resolveLog | intros ? ?]
  | |- emits _ (bind _ _) => apply emits_bind; [|intros ?]
  | |- emits _ (try_catch _ _) => apply emits_try_catch; [|intros ?]
  | |- emits _ (when _ _) => apply emits_when
  | |- emits _ (log _ _ _ _) => apply emits_log
  | |- emits _ (ret _) => apply emits_ret
  | |- emits _ (call _) => eapply emits_pure; apply pure_call
  | |- emits _ (currentUserId _) => apply emits_currentUserId
  | |- emits _ (newDate _) => apply emits_newDate
  | |- emits _ (performanceNow _) => apply emits_performanceNow
  | |- emits _ (addDoc _ _ _) => apply emits_addDoc; intros ?
  | |- emits _ (updateDoc _ _ _) => apply emits_updateDoc; intros ?
  | |- emits _ (deleteDoc _ _) => apply emits_deleteDoc; intros ?
  | |- emits _ (getDocByMode _ _ DefaultMode) =>
      change (getDocByMode ?be ?ref DefaultMode) with (getDocFrom be Combined ref);
      apply emits_getDocFrom; intros ?
  | |- emits _ (getDocByMode _ _ _) => apply emits_getDocByMode; intros ? ?
  | |- emits _ (getDocsByMode _ _ _) => apply emits_getDocsByMode; intros ? ?
  | |- emits _ (match ?x with _ => _ end) => destruct x
  end.

(** ** Reads *)

Lemma and_then_inr {A B} (r : JsError + A) (k : A -> JsError + B) (b : B) :
  and_then r k = inr b -> exists a, r = inr a /\ k a = inr b.
Proof. destruct r as [e|a]; [discriminate|]. intros H. by exists a. Qed.

Lemma push_inr (refused : option JsError) (c : QueryConstraint)
    (acc l : list QueryConstraint) :
  push (construct refused c) acc = inr l -> l = acc ++ [c].
Proof. destruct refused; [discriminate|]. by intros [= <-]. Qed.

Lemma push_each_inr {A} (refuses : A -> option JsError) (made : A -> QueryConstraint)
    (xs : list A) (acc l : list QueryConstraint) :
  push_each (fun x => construct (refuses x) (made x)) xs acc = inr l ->
  l = acc ++ map made xs.
Proof.
  revert acc. induction xs as [|x xs IH]; intros acc; simpl.
  - intros [= <-]. by rewrite app_nil_r.
  - destruct (refuses x); [discriminate|]. simpl. intros H.
    rewrite (IH _ H). by rewrite <- app_assoc.
Qed.

(* the constraints built, when the builder returns *)
Lemma buildConstraints_returns (fs : Constructors) (opts : option CollectionOptions)
    (l : list QueryConstraint) :
  buildConstraints fs opts = inr l -> l = constraints_of opts.
Proof.
  destruct opts as [[wh ob lim cur]|]; [|by intros [= <-]].
  unfold buildConstraints, constraints_of, filter_constraints, sort_constraints,
    limit_constraint, cursor_constraint, where_, orderBy, limit, startAfter,
    endBefore.
  cbn [opt_where opt_orderBy opt_limit opt_cursor].
  intros H.
  apply and_then_inr in H as (l1 & H1 & H).
  apply and_then_inr in H as (l2 & H2 & H).
  apply and_then_inr in H as (l3 & H3 & H).
  apply and_then_inr in H as (l4 & H4 & H).
  apply and_then_inr in H as (l5 & H5 & H).
  injection H as <-.
  assert (E1 : l1 = map (fun c => QWhere (w_field c) (w_operator c) (w_value c))
                      (default [] wh)).
  { destruct wh as [xs|]; [|by injection H1 as <-].
    by apply push_each_inr in H1 as ->. }
  assert (E2 : l2 = l1 ++ map (fun o => QOrderBy (o_field o)
                                           (match o_direction o with
                                            | Some d => d
                                            | None => Asc
                                            end))
                           (default [] ob)).
  { destruct ob as [xs|]; [|injection H2 as <-; by rewrite app_nil_r].
    by apply (push_each_inr
                (fun o => orderBy_refuses fs (o_field o) (default Asc (o_direction o)))
                (fun o => QOrderBy (o_field o) (default Asc (o_direction o))))
      in H2 as ->. }
  assert (E3 : l3 = l2 ++ match lim with Some n => [QLimit n] | None => [] end).
  { destruct lim as [n|]; [|injection H3 as <-; by rewrite app_nil_r].
    by apply push_inr in H3 as ->. }
  assert (E5 : l5 = l3 ++ match cur with
                          | None => []
                          | Some c0 =>
                              match c_doc c0 with
                              | None => []
                              | Some d => [match c_type c0 with
                                           | After => QStartAfter d
                                           | Before => QEndBefore d
                                           end]
                              end
                          end).
  { destruct cur as [[[] [d|]]|]; cbn [c_type c_doc] in *.
    - apply push_inr in H4 as ->. by injection H5 as <-.
    - injection H4 as <-. injection H5 as <-. by rewrite app_nil_r.
    - injection H4 as <-. by apply push_inr in H5 as ->.
    - injection H4 as <-. injection H5 as <-. by rewrite app_nil_r.
    - injection H4 as <-. injection H5 as <-. by rewrite app_nil_r. }
  rewrite E5, E3, E2, E1. by rewrite <- !app_assoc.
Qed.

(** X12: the read hooks only read, and only what they were asked: all a
    collection read appends to the trace are reads of its own query and
    messages to the logger, and all a document read appends are reads of
    its own reference and messages to the logger; nothing is written. *)
Theorem reads_only_read {St : Type} (be : Backend St) (fs : Constructors)
    (cfg : UseFirebaseConfig) (c : string) :
  (forall options behavior,
     emits (fun ev => is_log ev
                      \/ exists src r,
                           ev = EGetDocs src (collection_query c options) r)
           (useCollection_queryFn be fs cfg c options behavior))
  /\ (forall documentId behavior,
        emits (fun ev => is_log ev
                         \/ exists src ref r,
                              ev = EGetDoc src ref r
                              /\ exists id, documentId = Some id
                                            /\ be_doc be c (VStr id) = inr ref)
              (useDocument be cfg c documentId behavior)).
Proof.
  split.
  - intros options behavior. unfold useCollection_queryFn.
    apply emits_bind; [apply emits_performanceNow|intros start].
    eapply emits_bind_pure; [apply pure_call|]. intros constraints Hc.
    apply buildConstraints_returns in Hc as ->.
    change {| q_collection := c; q_constraints := constraints_of options |}
      with (collection_query c options).
    repeat emits_step; simpl; eauto.
  - intros documentId behavior. unfold useDocument, useQuery, useDocument_queryFn.
    destruct (default _ _); [|apply emits_ret].
    destruct documentId as [[|a id]|]; repeat emits_step; simpl; eauto 10.
Qed.

(** ** What the mutations call *)

(** X13: a mutation touches its own document and its own audit log, and
    nothing else: a create only writes to its collection and to the log
    collection; an update only reads (plainly) and updates the document of
    the input's id and writes to the log collection; a delete only reads
    (plainly) and deletes the document of the id and writes to the log
    collection. *)
Theorem mutations_stay_on_target {St : Type} (be : Backend St)
    (cfg : UseFirebaseConfig) (c : string) :
  (forall opts data,
     emits (create_event c (resolveLogName cfg c))
           (useAddDocument_mutationFn be cfg c opts data))
  /\ (forall opts data,
        emits (update_event (be_doc be c (get data "id")) (resolveLogName cfg c))
              (useUpdateDocument_mutationFn be cfg c opts data))
  /\ (forall opts id,
        emits (delete_event (be_doc be c (VStr id)) (resolveLogName cfg c))
              (useDeleteDocument_mutationFn be cfg c opts id)).
Proof.
  split; [|split].
  - intros opts data. unfold useAddDocument_mutationFn.
    repeat emits_step; simpl; auto.
  - intros opts data. unfold useUpdateDocument_mutationFn.
    repeat emits_step; simpl; auto.
  - intros opts id. unfold useDeleteDocument_mutationFn.
    repeat emits_step; simpl; auto.
Qed.

(** ** The order of the calls *)

(** X14: in the modes other than cache-first a read is one call, to the
    read function of the mode (server-only: the server; cache-only: the
    cache; default: the plain read), and the call's outcome is the
    result. *)
Theorem single_call_modes {St : Type} (be : Backend St) (mode : PreferCacheMode)
    (w : World St) :
  mode <> CacheFirst ->
  (forall q,
     getDocsByMode be q mode w
     = (fst (be_getDocs be (mode_source mode) q (store w)),
        {| store := snd (be_getDocs be (mode_source mode) q (store w));
           trace := trace w ++ [EGetDocs (mode_source mode) q
                                  (fst (be_getDocs be (mode_source mode) q (store w)))] |}))
  /\ (forall ref,
        getDocByMode be ref mode w
        = (fst (be_getDoc be (mode_source mode) ref (store w)),
           {| store := snd (be_getDoc be (mode_source mode) ref (store w));
              trace := trace w ++ [EGetDoc (mode_source mode) ref
                                     (fst (be_getDoc be (mode_source mode) ref (store w)))] |})).
Proof.
  intros Hmode. split; intros x; destruct mode; try done; simpl;
    first [apply getDocsFrom_run | apply getDocFrom_run].
Qed.

Lemma single_call_modes_witness :
  getDocsByMode (Demo.backend false)
    {| q_collection := "users"; q_constraints := [] |} ServerOnly Demo.w0
  = (inr Demo.users,
     {| store := tt;
        trace := [EGetDocs FromServer {| q_collection := "users"; q_constraints := [] |}
                    (inr Demo.users)] |}).
Proof.
  rewrite (proj1 (single_call_modes (Demo.backend false) ServerOnly Demo.w0
                    ltac:(discriminate))).
  reflexivity.
Defined.

Lemma create_payload_lookup (base : Record) (k : string) :
  create_payload base !! k
  = if decide (k = "createdAt" \/ k = "updatedAt")
    then Some VServerTimestamp else base !! k.
Proof.
  unfold create_payload. rewrite !lookup_insert.
  repeat case_decide; try done; exfalso; intuition congruence.
Qed.

Section Order.

Context {St : Type} (be : Backend St).

(** The mutations, with their try/catch blocks named. *)
Lemma useAddDocument_blocks (cfg : UseFirebaseConfig) (c : string)
    (opts : option AddOptions) (data : Record) :
  useAddDocument_mutationFn be cfg c opts data
  = (saved <- match opts ≫= add_beforeSave with
              | Some f => call (f data)
              | None => ret {| returned_value := data; argument_after := data |}
              end ;;
     when (default false (opts ≫= add_debug))
       (log cfg Debug [Txt "📝 add "; quoted c]
          (DataArg (create_payload (returned_value saved)))) ;;;
     ref <- addDoc be c (create_payload (returned_value saved)) ;;
     when (default false (opts ≫= add_enableLogging))
       (create_audit be cfg c (create_payload (returned_value saved)) ref) ;;;
     ret (with_id (ref_id ref) (argument_after saved))).
Proof. reflexivity. Qed.

Lemma useUpdateDocument_blocks (cfg : UseFirebaseConfig) (c : string)
    (opts : option UpdateOptions) (data : Record) :
  useUpdateDocument_mutationFn be cfg c opts data
  = (transformed <- match opts ≫= upd_beforeSave with
                    | Some f =>
                        saved <- call (f (delete "id" data)) ;;
                        ret (returned_value saved)
                    | None => ret (delete "id" data)
                    end ;;
     when (default false (opts ≫= upd_debug))
       (log cfg Debug [Txt "📝 update "; quoted c; Txt "/"; Interp (get data "id")]
          (DataArg (update_payload transformed))) ;;;
     ref <- doc be c (get data "id") ;;
     previous <- (if reads_previous cfg opts
                  then update_previous be cfg ref
                  else ret None) ;;
     updateDoc be ref (update_payload transformed) ;;;
     when (default false (opts ≫= upd_enableLogging))
       (update_audit be cfg c (update_payload transformed) (get data "id") previous) ;;;
     ret data).
Proof. reflexivity. Qed.

Lemma useDeleteDocument_blocks (cfg : UseFirebaseConfig) (c : string)
    (opts : option DeleteOptions) (id : string) :
  useDeleteDocument_mutationFn be cfg c opts id
  = (ref <- doc be c (VStr id) ;;
     deletedData <- delete_snapshot be cfg ref ;;
     deleteDoc be ref ;;;
     when (default false (opts ≫= del_debug))
       (log cfg Debug [Txt "🗑️ deleted "; quoted c; Txt "/"; Txt id] NoArg) ;;;
     when (default false (opts ≫= del_enableLogging))
       (delete_audit be cfg c id deletedData) ;;;
     ret id).
Proof. reflexivity. Qed.

(* the trace of a leaf is the initial trace and a list *)
Ltac leaf_trace :=
  first [ reflexivity
        | rewrite <- ?app_assoc; reflexivity
        | symmetry; apply app_nil_r ].

Ltac step_keep :=
  match goal with
  | |- context [match ?x with _ => _ end] =>
      lazymatch x with
      | context [match _ with _ => _ end] => fail
      | _ => destruct x eqn:?; mred
      end
  end.

Ltac leaf_entry Hu Hl :=
  first [ discriminate Hu | discriminate Hl
        | injection Hu as <-; injection Hl as <-;
          match goal with E : be_addDoc _ _ _ _ = _ |- _ => rewrite E end;
          reflexivity ].

(** The audit block of a create returns, calls the store at most once,
    and, given the user and the log collection, writes the entry. *)
Lemma create_audit_run (cfg : UseFirebaseConfig) (c : string) (payload : Record)
    (ref : DocRef) (w : World St) :
  let run := create_audit be cfg c payload ref w in
  fst run = inr tt
  /\ exists l,
       trace (snd run) = trace w ++ l
       /\ length (store_calls l) <= 1
       /\ forall u logCol,
            user_of cfg = inr u -> resolveLogName cfg c = inr logCol ->
            store_calls l
            = [EAddDoc logCol
                 (create_entry payload (ref_id ref) u (fst (be_newDate be (store w))))
                 (fst (be_addDoc be logCol
                         (create_entry payload (ref_id ref) u
                            (fst (be_newDate be (store w))))
                         (snd (be_newDate be (store w)))))].
Proof.
  destruct w as [s tr].
  unfold create_audit, user_of, resolveLogName, create_entry, nowServerTimestamp.
  mred. split; [repeat step; reflexivity|].
  repeat step_keep.
  all: eexists; (split; [leaf_trace|]); split; [simpl; lia|];
    intros u logCol Hu Hl; leaf_entry Hu Hl.
Qed.

Lemma update_audit_run (cfg : UseFirebaseConfig) (c : string) (payload : Record)
    (id : Value) (previous : option Record) (w : World St) :
  let run := update_audit be cfg c payload id previous w in
  fst run = inr tt
  /\ exists l,
       trace (snd run) = trace w ++ l
       /\ length (store_calls l) <= 1
       /\ forall u logCol,
            user_of cfg = inr u -> resolveLogName cfg c = inr logCol ->
            store_calls l
            = [EAddDoc logCol
                 (update_entry payload id u (fst (be_newDate be (store w))) previous)
                 (fst (be_addDoc be logCol
                         (update_entry payload id u
                            (fst (be_newDate be (store w))) previous)
                         (snd (be_newDate be (store w)))))].
Proof.
  destruct w as [s tr].
  unfold update_audit, user_of, resolveLogName, update_entry, nowServerTimestamp.
  mred. split; [repeat step; reflexivity|].
  repeat step_keep.
  all: eexists; (split; [leaf_trace|]); split; [simpl; lia|];
    intros u logCol Hu Hl; leaf_entry Hu Hl.
Qed.

Lemma delete_audit_run (cfg : UseFirebaseConfig) (c id : string)
    (deletedData : Value) (w : World St) :
  let run := delete_audit be cfg c id deletedData w in
  fst run = inr tt
  /\ exists l,
       trace (snd run) = trace w ++ l
       /\ length (store_calls l) <= 1
       /\ forall u logCol,
            user_of cfg = inr u -> resolveLogName cfg c = inr logCol ->
            store_calls l
            = [EAddDoc logCol
                 (delete_entry id u (fst (be_newDate be (store w))) deletedData)
                 (fst (be_addDoc be logCol
                         (delete_entry id u (fst (be_newDate be (store w))) deletedData)
                         (snd (be_newDate be (store w)))))].
Proof.
  destruct w as [s tr].
  unfold delete_audit, user_of, resolveLogName, delete_entry, nowServerTimestamp.
  mred. split; [repeat step; reflexivity|].
  repeat step_keep.
  all: eexists; (split; [leaf_trace|]); split; [simpl; lia|];
    intros u logCol Hu Hl; leaf_entry Hu Hl.
Qed.

(** The read before an update or a delete: one plain read of the
    document, a warning when it fails, and never a failure of its own. *)
Lemma update_previous_run (cfg : UseFirebaseConfig) (ref : DocRef) (w : World St) :
  let r1 := fst (be_getDoc be Combined ref (store w)) in
  exists warned,
    update_previous be cfg ref w
    = (inr (match r1 with
            | inr snap => snapshot_record snap
            | inl _ => None
            end),
       {| store := snd (be_getDoc be Combined ref (store w));
          trace := trace w ++ EGetDoc Combined ref r1 :: warned |})
    /\ store_calls warned = [].
Proof.
  destruct w as [s tr]. unfold update_previous, snapshot_record. mred.
  repeat step; eexists; (split; [rewrite <- ?app_assoc; reflexivity | reflexivity]).
Qed.

Lemma delete_snapshot_run (cfg : UseFirebaseConfig) (ref : DocRef) (w : World St) :
  let r1 := fst (be_getDoc be Combined ref (store w)) in
  exists warned,
    delete_snapshot be cfg ref w
    = (inr (match r1 with
            | inr snap => from_option VObj VNull (snapshot_record snap)
            | inl _ => VNull
            end),
       {| store := snd (be_getDoc be Combined ref (store w));
          trace := trace w ++ EGetDoc Combined ref r1 :: warned |})
    /\ store_calls warned = [].
Proof.
  destruct w as [s tr]. unfold delete_snapshot, snapshot_record. mred.
  repeat step; eexists; (split; [rewrite <- ?app_assoc; reflexivity | reflexivity]).
Qed.

(** Stepping through a run. *)
Lemma bind_run {A B} (m : M St A) (k : A -> M St B) (w w' : World St) (a : A) :
  m w = (inr a, w') -> bind m k w = k a w'.
Proof. unfold bind. by intros ->. Qed.

Lemma bind_fail {A B} (m : M St A) (k : A -> M St B) (w w' : World St)
    (e : JsError) :
  m w = (inl e, w') -> bind m k w = (inl e, w').
Proof. unfold bind. by intros ->. Qed.

Lemma when_log_run (cfg : UseFirebaseConfig) (b : bool) (lvl : Level)
    (msg : list Part) (arg : LogArg) (w : World St) :
  when b (log cfg lvl msg arg) w
  = (inr tt, {| store := store w; trace := trace w ++ logged cfg b lvl msg arg |}).
Proof.
  destruct w as [s tr]. unfold when, log, logged, ret, emit. simpl.
  destruct b; simpl; [destruct (has_level cfg lvl); simpl|];
    by rewrite ?app_nil_r.
Qed.

Lemma addDoc_run (c : string) (p : Record) (w : World St) :
  addDoc be c p w
  = (fst (be_addDoc be c p (store w)),
     {| store := snd (be_addDoc be c p (store w));
        trace := trace w ++ [EAddDoc c p (fst (be_addDoc be c p (store w)))] |}).
Proof. unfold addDoc, emit. by destruct (be_addDoc be c p (store w)). Qed.

Lemma updateDoc_run (ref : DocRef) (p : Record) (w : World St) :
  updateDoc be ref p w
  = (fst (be_updateDoc be ref p (store w)),
     {| store := snd (be_updateDoc be ref p (store w));
        trace := trace w ++ [EUpdateDoc ref p (fst (be_updateDoc be ref p (store w)))] |}).
Proof. unfold updateDoc, emit. by destruct (be_updateDoc be ref p (store w)). Qed.

Lemma deleteDoc_run (ref : DocRef) (w : World St) :
  deleteDoc be ref w
  = (fst (be_deleteDoc be ref (store w)),
     {| store := snd (be_deleteDoc be ref (store w));
        trace := trace w ++ [EDeleteDoc ref (fst (be_deleteDoc be ref (store w)))] |}).
Proof. unfold deleteDoc, emit. by destruct (be_deleteDoc be ref (store w)). Qed.

(** The end of a mutation: the audit block, when logging is on, and the
    result, whatever the block did. *)
Lemma audit_tail {A} (en : bool) (block : M St unit) (result : A) (w : World St) :
  fst (block w) = inr tt ->
  bind (when en block) (fun _ => ret result) w
  = (inr result, if en then snd (block w) else w).
Proof.
  intros H. unfold bind, when, ret. destruct en; [|done].
  destruct (block w) as [[e|[]] w']; simpl in *; [discriminate | done].
Qed.

Lemma store_calls_app (l1 l2 : list Event) :
  store_calls (l1 ++ l2) = store_calls l1 ++ store_calls l2.
Proof. apply List.filter_app. Qed.

Lemma store_calls_logged (cfg : UseFirebaseConfig) (b : bool) (lvl : Level)
    (msg : list Part) (arg : LogArg) :
  store_calls (logged cfg b lvl msg arg) = [].
Proof. unfold logged. by destruct (b && has_level cfg lvl). Qed.

End Order.

Section Calls.

Context {St : Type} (be : Backend St).

(* the whole run of a create whose beforeSave returns *)
Lemma create_run (cfg : UseFirebaseConfig) (c : string)
    (opts : option AddOptions) (data base : Record) (w : World St) :
  transform (opts ≫= add_beforeSave) data = inr base ->
  let r := fst (be_addDoc be c (create_payload base) (store w)) in
  let run := useAddDocument_mutationFn be cfg c opts data w in
  exists dbg audit,
    trace (snd run) = trace w ++ dbg ++ EAddDoc c (create_payload base) r :: audit
    /\ store_calls dbg = []
    /\ length (store_calls audit) <= 1
    /\ (default false (opts ≫= add_enableLogging) = false -> audit = [])
    /\ (forall e, r = inl e -> audit = [])
    /\ (forall ref u logCol,
          r = inr ref ->
          default false (opts ≫= add_enableLogging) = true ->
          user_of cfg = inr u -> resolveLogName cfg c = inr logCol ->
          let written := snd (be_addDoc be c (create_payload base) (store w)) in
          let entry := create_entry (create_payload base) (ref_id ref) u
                         (fst (be_newDate be written)) in
          store_calls audit
          = [EAddDoc logCol entry
               (fst (be_addDoc be logCol entry (snd (be_newDate be written))))]).
Proof.
  intros Ht r run. subst run. rewrite useAddDocument_blocks.
  destruct (transform_saved _ _ _ Ht) as (saved & Hs & Hbase & _).
  rewrite (bind_run _ _ w w saved) by (by rewrite pure_saved_by, Hs).
  rewrite Hbase.
  rewrite (bind_run _ _ _ _ tt (when_log_run _ _ _ _ _ _)).
  set (dbg := logged cfg _ _ _ _).
  set (w1 := {| store := store w; trace := trace w ++ dbg |}).
  pose proof (addDoc_run be c (create_payload base) w1) as Hadd.
  change (store w1) with (store w) in Hadd. fold r in Hadd.
  exists dbg. destruct r as [e|ref] eqn:Er.
  - rewrite (bind_fail _ _ _ _ _ Hadd). exists []. simpl.
    rewrite <- app_assoc. repeat split; try done.
    + apply store_calls_logged.
    + lia.
  - rewrite (bind_run _ _ _ _ _ Hadd).
    match goal with
    | |- context [create_audit be cfg c ?p ref] =>
        destruct (create_audit_run be cfg c p ref
                    {| store := snd (be_addDoc be c (create_payload base) (store w));
                       trace := trace w1 ++ [EAddDoc c (create_payload base) (inr ref)] |})
          as [Hfst (l & Hl & Hlen & Hentry)]
    end.
    rewrite (audit_tail _ _ _ _ Hfst).
    destruct (default false (opts ≫= add_enableLogging)) eqn:Een.
    + exists l. cbn [snd]. rewrite Hl. cbn [trace w1].
      rewrite <- !app_assoc. repeat split; try done.
      * apply store_calls_logged.
      * intros ref' u logCol [= <-] _ Hu Hlog.
        exact (Hentry u logCol Hu Hlog).
    + exists []. cbn [snd trace w1].
      rewrite <- !app_assoc. repeat split; try done.
      * apply store_calls_logged.
      * simpl. lia.
Qed.

(* the whole run of an update whose beforeSave and reference succeed *)
Lemma update_run (cfg : UseFirebaseConfig) (c : string)
    (opts : option UpdateOptions) (data transformed : Record) (ref : DocRef)
    (w : World St) :
  transform (opts ≫= upd_beforeSave) (delete "id" data) = inr transformed ->
  be_doc be c (get data "id") = inr ref ->
  let r1 := fst (be_getDoc be Combined ref (store w)) in
  let previous := if reads_previous cfg opts
                  then match r1 with
                       | inr snap => snapshot_record snap
                       | inl _ => None
                       end
                  else None in
  let r2 := fst (be_updateDoc be ref (update_payload transformed)
                   (store_before_update be cfg opts ref w)) in
  let run := useUpdateDocument_mutationFn be cfg c opts data w in
  exists dbg pre audit,
    trace (snd run)
    = trace w ++ dbg ++ pre ++ EUpdateDoc ref (update_payload transformed) r2 :: audit
    /\ store_calls dbg = []
    /\ store_calls pre
       = (if reads_previous cfg opts then [EGetDoc Combined ref r1] else [])
    /\ length (store_calls audit) <= 1
    /\ (default false (opts ≫= upd_enableLogging) = false -> audit = [])
    /\ (forall e, r2 = inl e -> audit = [])
    /\ (forall u logCol,
          r2 = inr tt ->
          default false (opts ≫= upd_enableLogging) = true ->
          user_of cfg = inr u -> resolveLogName cfg c = inr logCol ->
          exists d r', store_calls audit
                       = [EAddDoc logCol
                            (update_entry (update_payload transformed)
                               (get data "id") u d previous) r']).
Proof.
  intros Ht Hdoc r1 previous r2 run. subst run. rewrite useUpdateDocument_blocks.
  rewrite (bind_run _ _ w w transformed) by (by rewrite pure_transform, Ht).
  rewrite (bind_run _ _ _ _ tt (when_log_run _ _ _ _ _ _)).
  set (dbg := logged cfg _ _ _ _).
  set (w1 := {| store := store w; trace := trace w ++ dbg |}).
  rewrite (bind_run _ _ w1 w1 ref) by (unfold doc, call; by rewrite Hdoc).
  assert (Hprev : exists pre,
            (if reads_previous cfg opts then update_previous be cfg ref else ret None) w1
            = (inr previous,
               {| store := store_before_update be cfg opts ref w;
                  trace := trace w1 ++ pre |})
            /\ store_calls pre
               = (if reads_previous cfg opts then [EGetDoc Combined ref r1] else [])).
  { subst previous. unfold store_before_update.
    destruct (reads_previous cfg opts).
    - destruct (update_previous_run be cfg ref w1) as (warned & Hrun & Hw).
      eexists. split; [exact Hrun|].
      change (EGetDoc Combined ref ?r :: warned) with ([EGetDoc Combined ref r] ++ warned).
      rewrite store_calls_app, Hw. done.
    - exists []. split; [|done]. unfold ret. by rewrite app_nil_r. }
  destruct Hprev as (pre & Hprev & Hpre).
  rewrite (bind_run _ _ _ _ _ Hprev).
  set (w2 := {| store := store_before_update be cfg opts ref w;
                trace := trace w1 ++ pre |}).
  pose proof (updateDoc_run be ref (update_payload transformed) w2) as Hupd.
  change (store w2) with (store_before_update be cfg opts ref w) in Hupd.
  fold r2 in Hupd.
  exists dbg, pre. destruct r2 as [e|[]] eqn:Er.
  - rewrite (bind_fail _ _ _ _ _ Hupd). exists []. cbn [snd trace w2 w1].
    rewrite <- !app_assoc. repeat split; try done.
    + apply store_calls_logged.
    + simpl. lia.
  - rewrite (bind_run _ _ _ _ _ Hupd).
    match goal with
    | |- context [update_audit be cfg c ?p ?i ?pr] =>
        destruct (update_audit_run be cfg c p i pr
                    {| store := snd (be_updateDoc be ref (update_payload transformed)
                                       (store_before_update be cfg opts ref w));
                       trace := trace w2
                                ++ [EUpdateDoc ref (update_payload transformed) (inr ())] |})
          as [Hfst (l & Hl & Hlen & Hentry)]
    end.
    rewrite (audit_tail _ _ _ _ Hfst).
    destruct (default false (opts ≫= upd_enableLogging)) eqn:Een.
    + exists l. cbn [snd]. rewrite Hl. cbn [trace w2 w1].
      rewrite <- !app_assoc. repeat split; try done.
      * apply store_calls_logged.
      * intros u logCol _ _ Hu Hlog. rewrite (Hentry u logCol Hu Hlog). eauto.
    + exists []. cbn [snd trace w2 w1].
      rewrite <- !app_assoc. repeat split; try done.
      * apply store_calls_logged.
      * simpl. lia.
Qed.

(* the whole run of a delete whose reference succeeds *)
Lemma delete_run (cfg : UseFirebaseConfig) (c : string)
    (opts : option DeleteOptions) (id : string) (ref : DocRef) (w : World St) :
  be_doc be c (VStr id) = inr ref ->
  let r1 := fst (be_getDoc be Combined ref (store w)) in
  let deletedData := match r1 with
                     | inr snap => from_option VObj VNull (snapshot_record snap)
                     | inl _ => VNull
                     end in
  let r2 := fst (be_deleteDoc be ref (snd (be_getDoc be Combined ref (store w)))) in
  let run := useDeleteDocument_mutationFn be cfg c opts id w in
  exists warned audit,
    trace (snd run)
    = trace w ++ EGetDoc Combined ref r1 :: warned ++ EDeleteDoc ref r2 :: audit
    /\ store_calls warned = []
    /\ length (store_calls audit) <= 1
    /\ (default false (opts ≫= del_enableLogging) = false -> store_calls audit = [])
    /\ (forall e, r2 = inl e -> audit = [])
    /\ (forall u logCol,
          r2 = inr tt ->
          default false (opts ≫= del_enableLogging) = true ->
          user_of cfg = inr u -> resolveLogName cfg c = inr logCol ->
          exists d r', store_calls audit
                       = [EAddDoc logCol (delete_entry id u d deletedData) r']).
Proof.
  intros Hdoc r1 deletedData r2 run. subst run. rewrite useDeleteDocument_blocks.
  rewrite (bind_run _ _ w w ref) by (unfold doc, call; by rewrite Hdoc).
  destruct (delete_snapshot_run be cfg ref w) as (warned & Hsnap & Hwarned).
  fold r1 in Hsnap. fold deletedData in Hsnap.
  rewrite (bind_run _ _ _ _ _ Hsnap).
  set (w1 := {| store := snd (be_getDoc be Combined ref (store w));
                trace := trace w ++ EGetDoc Combined ref r1 :: warned |}).
  pose proof (deleteDoc_run be ref w1) as Hdel.
  change (store w1) with (snd (be_getDoc be Combined ref (store w))) in Hdel.
  fold r2 in Hdel.
  exists warned. destruct r2 as [e|[]] eqn:Er.
  - rewrite (bind_fail _ _ _ _ _ Hdel). exists []. cbn [snd trace w1].
    rewrite <- !app_assoc. repeat split; try done. simpl. lia.
  - rewrite (bind_run _ _ _ _ _ Hdel).
    rewrite (bind_run _ _ _ _ tt (when_log_run _ _ _ _ _ _)).
    set (dbg := logged cfg _ _ _ _).
    match goal with
    | |- context [delete_audit be cfg c id ?dd] =>
        destruct (delete_audit_run be cfg c id dd
                    {| store := snd (be_deleteDoc be ref
                                       (snd (be_getDoc be Combined ref (store w))));
                       trace := (trace w1 ++ [EDeleteDoc ref (inr ())]) ++ dbg |})
          as [Hfst (l & Hl & Hlen & Hentry)]
    end.
    rewrite (audit_tail _ _ _ _ Hfst).
    assert (Hdbg : store_calls dbg = []) by apply store_calls_logged.
    destruct (default false (opts ≫= del_enableLogging)) eqn:Een.
    + exists (dbg ++ l). cbn [snd]. rewrite Hl. cbn [trace w1].
      rewrite <- !app_assoc. rewrite store_calls_app, Hdbg.
      repeat split; try done.
      intros u logCol _ _ Hu Hlog. rewrite (Hentry u logCol Hu Hlog). eauto.
    + exists dbg. cbn [snd trace w1].
      rewrite <- !app_assoc. rewrite Hdbg. repeat split; try done. simpl. lia.
Qed.

End Calls.

Lemma update_payload_lookup (transformed : Record) (k : string) :
  update_payload transformed !! k
  = if decide (k = "updatedAt") then Some VServerTimestamp else transformed !! k.
Proof.
  unfold update_payload. rewrite lookup_insert.
  repeat case_decide; try done; exfalso; intuition congruence.
Qed.

Lemma store_calls_cons_call (ev : Event) (l : list Event) :
  is_store_call ev = true -> store_calls (ev :: l) = ev :: store_calls l.
Proof. unfold store_calls. simpl. by intros ->. Qed.

(** X15: a create whose beforeSave returns makes the write of the
    document its first call, with beforeSave's fields and both timestamps
    set to the server's (whatever the input had there); at most one more
    call follows, the audit-log write, and none when logging is off or the
    write of the document failed. *)
Theorem create_calls {St : Type} (be : Backend St) (cfg : UseFirebaseConfig)
    (c : string) (opts : option AddOptions) (data base : Record) (w : World St) :
  transform (opts ≫= add_beforeSave) data = inr base ->
  let r := fst (be_addDoc be c (create_payload base) (store w)) in
  let run := useAddDocument_mutationFn be cfg c opts data w in
  (forall k, create_payload base !! k
             = if decide (k = "createdAt" \/ k = "updatedAt")
               then Some VServerTimestamp else base !! k)
  /\ exists audit,
       store_calls (events_since w (snd run))
       = EAddDoc c (create_payload base) r :: audit
       /\ length audit <= 1
       /\ (default false (opts ≫= add_enableLogging) = false -> audit = [])
       /\ (forall e, r = inl e -> audit = []).
Proof.
  intros Ht r run. split; [apply create_payload_lookup|].
  destruct (create_run be cfg c opts data base w Ht)
    as (dbg & audit & Htr & Hdbg & Hlen & Hoff & Hfail & _).
  exists (store_calls audit). fold run r in Htr.
  rewrite (events_since_app _ _ _ Htr), store_calls_app, Hdbg.
  rewrite store_calls_cons_call by done.
  repeat split; try done.
  - intros H. by rewrite (Hoff H).
  - intros e H. by rewrite (Hfail e H).
Qed.

Lemma create_calls_witness :
  transform (Demo.add_opts true ≫= add_beforeSave) Demo.todo
  = inr (<["title" := VStr "Buy milk"]> Demo.todo)
  /\ exists audit,
       store_calls
         (events_since Demo.w0
            (snd (useAddDocument_mutationFn (Demo.backend true) Demo.cfg "todos"
                    (Demo.add_opts true) Demo.todo Demo.w0)))
       = EAddDoc "todos" (create_payload (<["title" := VStr "Buy milk"]> Demo.todo))
           (inr {| ref_collection := "todos"; ref_id := "new1" |}) :: audit
       /\ length audit <= 1.
Proof.
  assert (Ht : transform (Demo.add_opts true ≫= add_beforeSave) Demo.todo
               = inr (<["title" := VStr "Buy milk"]> Demo.todo))
    by (vm_compute; reflexivity).
  split; [exact Ht|].
  destruct (create_calls (Demo.backend true) Demo.cfg "todos" (Demo.add_opts true)
              Demo.todo _ Demo.w0 Ht) as (_ & audit & H1 & H2 & _).
  exists audit. split; [exact H1 | exact H2].
Defined.

(** X16: an update whose beforeSave and reference succeed writes to the
    document of the input's id the transformed fields with updatedAt set
    to the server's; a plain read of the document comes before the write
    exactly when logging and includePreviousData are both on, and the
    write follows whatever that read gave; at most one more call follows,
    the audit-log write, and none when logging is off or the write
    failed. *)
Theorem update_calls {St : Type} (be : Backend St) (cfg : UseFirebaseConfig)
    (c : string) (opts : option UpdateOptions) (data transformed : Record)
    (ref : DocRef) (w : World St) :
  transform (opts ≫= upd_beforeSave) (delete "id" data) = inr transformed ->
  be_doc be c (get data "id") = inr ref ->
  let r1 := fst (be_getDoc be Combined ref (store w)) in
  let r2 := fst (be_updateDoc be ref (update_payload transformed)
                   (store_before_update be cfg opts ref w)) in
  let run := useUpdateDocument_mutationFn be cfg c opts data w in
  (forall k, update_payload transformed !! k
             = if decide (k = "updatedAt") then Some VServerTimestamp
               else transformed !! k)
  /\ exists audit,
       store_calls (events_since w (snd run))
       = (if reads_previous cfg opts then [EGetDoc Combined ref r1] else [])
         ++ EUpdateDoc ref (update_payload transformed) r2 :: audit
       /\ length audit <= 1
       /\ (default false (opts ≫= upd_enableLogging) = false -> audit = [])
       /\ (forall e, r2 = inl e -> audit = []).
Proof.
  intros Ht Hdoc r1 r2 run. split; [apply update_payload_lookup|].
  destruct (update_run be cfg c opts data transformed ref w Ht Hdoc)
    as (dbg & pre & audit & Htr & Hdbg & Hpre & Hlen & Hoff & Hfail & _).
  exists (store_calls audit). fold run r1 r2 in Htr, Hpre.
  rewrite (events_since_app _ _ _ Htr), !store_calls_app, Hdbg, Hpre.
  rewrite store_calls_cons_call by done.
  repeat split; try done.
  - intros H. by rewrite (Hoff H).
  - intros e H. by rewrite (Hfail e H).
Qed.

Lemma update_calls_witness :
  let data : Record := {[ "id" := VStr "t1"; "title" := VStr "  Buy milk  " ]} in
  let transformed : Record := {[ "title" := VStr "Buy milk" ]} in
  let ref := {| ref_collection := "todos"; ref_id := "t1" |} in
  transform (Demo.upd_opts false ≫= upd_beforeSave) (delete "id" data) = inr transformed
  /\ be_doc (Demo.backend true) "todos" (get data "id") = inr ref
  /\ store_calls
       (events_since Demo.w0
          (snd (useUpdateDocument_mutationFn (Demo.backend true) Demo.cfg "todos"
                  (Demo.upd_opts false) data Demo.w0)))
     = [EUpdateDoc ref (update_payload transformed) (inr tt)].
Proof.
  intros data transformed ref.
  assert (Ht : transform (Demo.upd_opts false ≫= upd_beforeSave) (delete "id" data)
               = inr transformed) by (vm_compute; reflexivity).
  assert (Hdoc : be_doc (Demo.backend true) "todos" (get data "id") = inr ref)
    by reflexivity.
  split; [exact Ht|]. split; [exact Hdoc|].
  destruct (update_calls (Demo.backend true) Demo.cfg "todos" (Demo.upd_opts false)
              data transformed ref Demo.w0 Ht Hdoc) as (_ & audit & H1 & _ & H2 & _).
  rewrite H1, (H2 eq_refl). reflexivity.
Defined.

(** X17: a delete whose reference succeeds always reads the document
    first, plainly, with logging on or off, and always goes on to delete
    it, whatever the read gave; it returns the identifier exactly when the
    delete succeeded; at most one more call follows, the audit-log write,
    and none when logging is off or the delete failed. *)
Theorem delete_calls {St : Type} (be : Backend St) (cfg : UseFirebaseConfig)
    (c : string) (opts : option DeleteOptions) (id : string) (ref : DocRef)
    (w : World St) :
  be_doc be c (VStr id) = inr ref ->
  let r1 := fst (be_getDoc be Combined ref (store w)) in
  let r2 := fst (be_deleteDoc be ref (snd (be_getDoc be Combined ref (store w)))) in
  let run := useDeleteDocument_mutationFn be cfg c opts id w in
  fst run = match r2 with
            | inl e => inl e
            | inr _ => inr id
            end
  /\ exists audit,
       store_calls (events_since w (snd run))
       = EGetDoc Combined ref r1 :: EDeleteDoc ref r2 :: audit
       /\ length audit <= 1
       /\ (default false (opts ≫= del_enableLogging) = false -> audit = [])
       /\ (forall e, r2 = inl e -> audit = []).
Proof.
  intros Hdoc r1 r2 run. split.
  - subst run r2. by rewrite useDeleteDocument_result, Hdoc.
  - destruct (delete_run be cfg c opts id ref w Hdoc)
      as (warned & audit & Htr & Hw & Hlen & Hoff & Hfail & _).
    exists (store_calls audit). fold run r1 r2 in Htr.
    rewrite (events_since_app _ _ _ Htr).
    rewrite store_calls_cons_call, store_calls_app, Hw by done.
    rewrite store_calls_cons_call by done.
    repeat split; try done.
    intros e H. by rewrite (Hfail e H).
Qed.

Lemma delete_calls_witness :
  let ref := {| ref_collection := "todos"; ref_id := "t1" |} in
  let run := useDeleteDocument_mutationFn (Demo.backend true) Demo.cfg "todos"
               (Demo.del_opts false) "t1" Demo.w0 in
  be_doc (Demo.backend true) "todos" (VStr "t1") = inr ref
  /\ fst run = inr "t1"
  /\ store_calls (events_since Demo.w0 (snd run))
     = [EGetDoc Combined ref
          (inr {| snap_id := "t1";
                  snap_data := Some {[ "title" := VStr "Old title" ]} |});
        EDeleteDoc ref (inr tt)].
Proof.
  intros ref run.
  assert (Hdoc : be_doc (Demo.backend true) "todos" (VStr "t1") = inr ref)
    by reflexivity.
  split; [exact Hdoc|].
  destruct (delete_calls (Demo.backend true) Demo.cfg "todos" (Demo.del_opts false)
              "t1" ref Demo.w0 Hdoc) as (H0 & audit & H1 & _ & H2 & _).
  split; [exact H0|]. fold run in H1. rewrite H1, (H2 eq_refl). reflexivity.
Defined.

(** ** The audit-log entries *)

(** X18: the entry a create writes to the audit log, when the user and
    the log collection resolve: the stored payload, with the new
    document's id as originalDocId, action CREATE, the user (or null) as
    modifiedBy, the date read from the clock after the write of the
    document as modifiedOn, and the server timestamp; it is the second and
    last call of the run. *)
Theorem create_audit_entry {St : Type} (be : Backend St) (cfg : UseFirebaseConfig)
    (c : string) (opts : option AddOptions) (data base : Record) (ref : DocRef)
    (u : option string) (logCol : string) (w : World St) :
  transform (opts ≫= add_beforeSave) data = inr base ->
  fst (be_addDoc be c (create_payload base) (store w)) = inr ref ->
  default false (opts ≫= add_enableLogging) = true ->
  user_of cfg = inr u ->
  resolveLogName cfg c = inr logCol ->
  let payload := create_payload base in
  let modifiedOn := fst (be_newDate be (snd (be_addDoc be c payload (store w)))) in
  let entry := create_entry payload (ref_id ref) u modifiedOn in
  exists r',
    store_calls (events_since w (snd (useAddDocument_mutationFn be cfg c opts data w)))
    = [EAddDoc c payload (inr ref); EAddDoc logCol entry r']
    /\ entry !! "originalDocId" = Some (VStr (ref_id ref))
    /\ entry !! "action" = Some (VStr "CREATE")
    /\ entry !! "modifiedBy" = Some (of_nullable u)
    /\ entry !! "modifiedOn" = Some (VDate modifiedOn)
    /\ entry !! "timestamp" = Some VServerTimestamp
    /\ (forall k,
          k <> "originalDocId" -> k <> "action" -> k <> "modifiedBy" ->
          k <> "modifiedOn" -> k <> "timestamp" ->
          entry !! k = payload !! k).
Proof.
  intros Ht Hr Hen Hu Hlog payload modifiedOn entry.
  destruct (create_run be cfg c opts data base w Ht)
    as (dbg & audit & Htr & Hdbg & _ & _ & _ & Hentry).
  rewrite Hr in Htr, Hentry.
  pose proof (Hentry ref u logCol eq_refl Hen Hu Hlog) as Haudit.
  cbv zeta in Haudit. fold payload modifiedOn entry in Haudit.
  eexists. split.
  - rewrite (events_since_app _ _ _ Htr), store_calls_app, Hdbg.
    rewrite store_calls_cons_call by done. fold payload. by rewrite Haudit.
  - subst entry. unfold create_entry. repeat split;
      try (repeat first [rewrite lookup_insert_eq; reflexivity
                        | rewrite lookup_insert_ne by discriminate]).
    intros k H1 H2 H3 H4 H5. by rewrite !lookup_insert_ne.
Qed.

Lemma create_audit_entry_witness :
  exists r',
    store_calls
      (events_since Demo.w0
         (snd (useAddDocument_mutationFn (Demo.backend false) Demo.cfg "todos"
                 (Demo.add_opts true) Demo.todo Demo.w0)))
    = [EAddDoc "todos" (create_payload (<["title" := VStr "Buy milk"]> Demo.todo))
         (inr {| ref_collection := "todos"; ref_id := "new1" |});
       EAddDoc "todos_log"
         (create_entry (create_payload (<["title" := VStr "Buy milk"]> Demo.todo))
            "new1" (Some "alice") "2024-05-01T10:00:00.000Z") r'].
Proof.
  assert (Ht : transform (Demo.add_opts true ≫= add_beforeSave) Demo.todo
               = inr (<["title" := VStr "Buy milk"]> Demo.todo))
    by (vm_compute; reflexivity).
  pose proof (create_audit_entry (Demo.backend false) Demo.cfg "todos"
                (Demo.add_opts true) Demo.todo _
                {| ref_collection := "todos"; ref_id := "new1" |}
                (Some "alice") "todos_log" Demo.w0 Ht eq_refl eq_refl eq_refl
                eq_refl) as H.
  cbv zeta in H. destruct H as (r' & H & _).
  exists r'. exact H.
Defined.

(** X19: the entry an update writes to the audit log, when the write to
    the document succeeded and the user and the log collection resolve:
    the update's payload, the input's id as originalDocId, action UPDATE,
    and as previousData the record read before the write when that read
    was made, succeeded and found the document, undefined otherwise. *)
Theorem update_audit_entry {St : Type} (be : Backend St) (cfg : UseFirebaseConfig)
    (c : string) (opts : option UpdateOptions) (data transformed : Record)
    (ref : DocRef) (u : option string) (logCol : string) (w : World St) :
  transform (opts ≫= upd_beforeSave) (delete "id" data) = inr transformed ->
  be_doc be c (get data "id") = inr ref ->
  fst (be_updateDoc be ref (update_payload transformed)
         (store_before_update be cfg opts ref w)) = inr tt ->
  default false (opts ≫= upd_enableLogging) = true ->
  user_of cfg = inr u ->
  resolveLogName cfg c = inr logCol ->
  let r1 := fst (be_getDoc be Combined ref (store w)) in
  let previous := if reads_previous cfg opts
                  then match r1 with
                       | inr snap => snapshot_record snap
                       | inl _ => None
                       end
                  else None in
  exists d r' entry,
    store_calls (events_since w (snd (useUpdateDocument_mutationFn be cfg c opts data w)))
    = (if reads_previous cfg opts then [EGetDoc Combined ref r1] else [])
      ++ [EUpdateDoc ref (update_payload transformed) (inr tt);
          EAddDoc logCol entry r']
    /\ entry = update_entry (update_payload transformed) (get data "id") u d previous
    /\ entry !! "previousData" = Some (from_option VObj VUndefined previous)
    /\ entry !! "originalDocId" = Some (get data "id")
    /\ entry !! "action" = Some (VStr "UPDATE")
    /\ entry !! "modifiedBy" = Some (of_nullable u).
Proof.
  intros Ht Hdoc Hr Hen Hu Hlog r1 previous.
  destruct (update_run be cfg c opts data transformed ref w Ht Hdoc)
    as (dbg & pre & audit & Htr & Hdbg & Hpre & _ & _ & _ & Hentry).
  rewrite Hr in Htr, Hentry.
  destruct (Hentry u logCol eq_refl Hen Hu Hlog) as (d & r' & Haudit).
  exists d, r', (update_entry (update_payload transformed) (get data "id") u d previous).
  split.
  - rewrite (events_since_app _ _ _ Htr), !store_calls_app, Hdbg, Hpre.
    rewrite store_calls_cons_call by done. by rewrite Haudit.
  - split; [done|]. unfold update_entry. repeat split;
      repeat first [rewrite lookup_insert_eq; reflexivity
                   | rewrite lookup_insert_ne by discriminate].
Qed.

Lemma update_audit_entry_witness :
  let data : Record := {[ "id" := VStr "t1"; "title" := VStr "  Buy milk  " ]} in
  exists r' entry,
    store_calls
      (events_since Demo.w0
         (snd (useUpdateDocument_mutationFn (Demo.backend false) Demo.cfg "todos"
                 (Demo.upd_opts true) data Demo.w0)))
    = [EGetDoc Combined {| ref_collection := "todos"; ref_id := "t1" |}
         (inr {| snap_id := "t1";
                 snap_data := Some {[ "title" := VStr "Old title" ]} |});
       EUpdateDoc {| ref_collection := "todos"; ref_id := "t1" |}
         (update_payload {[ "title" := VStr "Buy milk" ]}) (inr tt);
       EAddDoc "todos_log" entry r']
    /\ entry !! "previousData"
       = Some (VObj (with_id "t1" {[ "title" := VStr "Old title" ]})).
Proof.
  intros data.
  assert (Ht : transform (Demo.upd_opts true ≫= upd_beforeSave) (delete "id" data)
               = inr {[ "title" := VStr "Buy milk" ]})
    by (vm_compute; reflexivity).
  pose proof (update_audit_entry (Demo.backend false) Demo.cfg "todos"
                (Demo.upd_opts true) data _
                {| ref_collection := "todos"; ref_id := "t1" |}
                (Some "alice") "todos_log" Demo.w0 Ht eq_refl eq_refl eq_refl
                eq_refl eq_refl) as H.
  cbv zeta in H. destruct H as (d & r' & entry & H1 & _ & H2 & _).
  exists r', entry. split; [exact H1 | exact H2].
Defined.

(** X20: the entry a delete writes to the audit log, when the delete
    succeeded and the user and the log collection resolve: the id as
    originalDocId, action DELETE, and as deletedData the record read
    before the delete, null when that read failed or found no document. *)
Theorem delete_audit_entry {St : Type} (be : Backend St) (cfg : UseFirebaseConfig)
    (c : string) (opts : option DeleteOptions) (id : string) (ref : DocRef)
    (u : option string) (logCol : string) (w : World St) :
  be_doc be c (VStr id) = inr ref ->
  fst (be_deleteDoc be ref (snd (be_getDoc be Combined ref (store w)))) = inr tt ->
  default false (opts ≫= del_enableLogging) = true ->
  user_of cfg = inr u ->
  resolveLogName cfg c = inr logCol ->
  let r1 := fst (be_getDoc be Combined ref (store w)) in
  let deletedData := match r1 with
                     | inr snap => from_option VObj VNull (snapshot_record snap)
                     | inl _ => VNull
                     end in
  exists d r' entry,
    store_calls (events_since w (snd (useDeleteDocument_mutationFn be cfg c opts id w)))
    = [EGetDoc Combined ref r1; EDeleteDoc ref (inr tt); EAddDoc logCol entry r']
    /\ entry = delete_entry id u d deletedData
    /\ entry !! "deletedData" = Some deletedData
    /\ entry !! "originalDocId" = Some (VStr id)
    /\ entry !! "action" = Some (VStr "DELETE")
    /\ entry !! "modifiedBy" = Some (of_nullable u).
Proof.
  intros Hdoc Hr Hen Hu Hlog r1 deletedData.
  destruct (delete_run be cfg c opts id ref w Hdoc)
    as (warned & audit & Htr & Hw & _ & _ & _ & Hentry).
  rewrite Hr in Htr, Hentry.
  destruct (Hentry u logCol eq_refl Hen Hu Hlog) as (d & r' & Haudit).
  exists d, r', (delete_entry id u d deletedData). split.
  - rewrite (events_since_app _ _ _ Htr).
    rewrite store_calls_cons_call, store_calls_app, Hw by done.
    rewrite store_calls_cons_call by done. by rewrite Haudit.
  - split; [done|]. unfold delete_entry. repeat split;
      repeat first [rewrite lookup_insert_eq; reflexivity
                   | rewrite lookup_insert_ne by discriminate
                   | rewrite lookup_singleton_eq; reflexivity].
Qed.

Lemma delete_audit_entry_witness :
  let ref := {| ref_collection := "todos"; ref_id := "t1" |} in
  exists r' entry,
    store_calls
      (events_since Demo.w0
         (snd (useDeleteDocument_mutationFn unreadable_backend Demo.cfg "todos"
                 (Demo.del_opts true) "t1" Demo.w0)))
    = [EGetDoc Combined ref (inl (Error "unavailable")); EDeleteDoc ref (inr tt);
       EAddDoc "todos_log" entry r']
    /\ entry !! "deletedData" = Some VNull
    /\ entry !! "action" = Some (VStr "DELETE").
Proof.
  intros ref.
  pose proof (delete_audit_entry unreadable_backend Demo.cfg "todos"
                (Demo.del_opts true) "t1" ref (Some "alice") "todos_log" Demo.w0
                eq_refl eq_refl eq_refl eq_refl eq_refl) as H.
  cbv zeta in H. destruct H as (d & r' & entry & H1 & _ & H2 & _ & H3 & _).
  exists r', entry. split; [exact H1|]. split; [exact H2 | exact H3].
Defined.

(** ** Failures before the first call *)

(** X21: a mutation that fails before its first call to the store leaves
    no call behind: a create or an update whose beforeSave throws, and a
    delete whose reference cannot be built, stop at once with that error
    and the world as it was; an update whose reference cannot be built
    stops with that error after, at most, the debug message. *)
Theorem nothing_called_before_failure {St : Type} (be : Backend St)
    (cfg : UseFirebaseConfig) (c : string) (e : JsError) (w : World St) :
  (forall opts data,
     transform (opts ≫= add_beforeSave) data = inl e ->
     useAddDocument_mutationFn be cfg c opts data w = (inl e, w))
  /\ (forall opts data,
        transform (opts ≫= upd_beforeSave) (delete "id" data) = inl e ->
        useUpdateDocument_mutationFn be cfg c opts data w = (inl e, w))
  /\ (forall opts data transformed,
        transform (opts ≫= upd_beforeSave) (delete "id" data) = inr transformed ->
        be_doc be c (get data "id") = inl e ->
        fst (useUpdateDocument_mutationFn be cfg c opts data w) = inl e
        /\ store_calls
             (events_since w (snd (useUpdateDocument_mutationFn be cfg c opts data w)))
           = [])
  /\ (forall opts id,
        be_doc be c (VStr id) = inl e ->
        useDeleteDocument_mutationFn be cfg c opts id w = (inl e, w)).
Proof.
  split; [|split; [|split]].
  - intros opts data Ht. rewrite useAddDocument_blocks.
    apply bind_fail. by rewrite pure_saved_by, (transform_thrown _ _ _ Ht).
  - intros opts data Ht. rewrite useUpdateDocument_blocks.
    apply bind_fail. by rewrite pure_transform, Ht.
  - intros opts data transformed Ht Hdoc. rewrite useUpdateDocument_blocks.
    rewrite (bind_run _ _ w w transformed) by (by rewrite pure_transform, Ht).
    rewrite (bind_run _ _ _ _ tt (when_log_run _ _ _ _ _ _)).
    erewrite bind_fail by (unfold doc, call; by rewrite Hdoc).
    split; [done|]. cbn [snd].
    rewrite events_since_mk. apply store_calls_logged.
  - intros opts id Hdoc. rewrite useDeleteDocument_blocks.
    apply bind_fail. unfold doc, call. by rewrite Hdoc.
Qed.

Lemma nothing_called_before_failure_witness :
  useUpdateDocument_mutationFn (Demo.backend true) Demo.cfg "todos"
    (Demo.upd_opts true) {[ "id" := VStr "t1" ]} Demo.w0
  = (inl (Error "TypeError"), Demo.w0).
Proof.
  apply (proj1 (proj2 (nothing_called_before_failure (Demo.backend true) Demo.cfg
                         "todos" (Error "TypeError") Demo.w0))).
  vm_compute. reflexivity.
Defined.

(** ** What the read hooks return *)

Section Reads.

Context {St : Type} (be : Backend St).

Lemma performanceNow_run (w : World St) :
  performanceNow be w
  = (inr (fst (be_performanceNow be (store w))),
     {| store := snd (be_performanceNow be (store w)); trace := trace w |}).
Proof. unfold performanceNow. by destruct (be_performanceNow be (store w)). Qed.

(* a read by mode ends with the call whose outcome it returns *)
Lemma getDocsByMode_last (q : Query) (mode : PreferCacheMode) (w : World St) :
  exists l src,
    trace (snd (getDocsByMode be q mode w))
    = trace w ++ l ++ [EGetDocs src q (fst (getDocsByMode be q mode w))].
Proof.
  destruct mode.
  - exists [], Combined. unfold getDocsByMode, getDocs. by rewrite getDocsFrom_run.
  - pose proof (getDocsByMode_cache_first be q w) as H.
    destruct (be_getDocs be FromCache q (store w)) as [rc s1].
    destruct (be_getDocs be FromServer q s1) as [rs s2].
    rewrite H. destruct (docs_hit rc).
    + by exists [], FromCache.
    + by exists [EGetDocs FromCache q rc], FromServer.
  - exists [], FromCache. unfold getDocsByMode, getDocsFromCache.
    by rewrite getDocsFrom_run.
  - exists [], FromServer. unfold getDocsByMode, getDocsFromServer.
    by rewrite getDocsFrom_run.
Qed.

Lemma getDocByMode_last (ref : DocRef) (mode : PreferCacheMode) (w : World St) :
  exists l src,
    trace (snd (getDocByMode be ref mode w))
    = trace w ++ l ++ [EGetDoc src ref (fst (getDocByMode be ref mode w))].
Proof.
  destruct mode.
  - exists [], Combined. unfold getDocByMode, getDoc. by rewrite getDocFrom_run.
  - pose proof (getDocByMode_cache_first be ref w) as H.
    destruct (be_getDoc be FromCache ref (store w)) as [rc s1].
    destruct (be_getDoc be FromServer ref s1) as [rs s2].
    rewrite H. destruct (doc_hit rc).
    + by exists [], FromCache.
    + by exists [EGetDoc FromCache ref rc], FromServer.
  - exists [], FromCache. unfold getDocByMode, getDocFromCache.
    by rewrite getDocFrom_run.
  - exists [], FromServer. unfold getDocByMode, getDocFromServer.
    by rewrite getDocFrom_run.
Qed.

Lemma Forall_is_log_logged (cfg : UseFirebaseConfig) (b : bool) (lvl : Level)
    (msg : list Part) (arg : LogArg) :
  Forall is_log (logged cfg b lvl msg arg).
Proof.
  unfold logged. destruct (b && has_level cfg lvl); repeat constructor.
Qed.

End Reads.

Lemma record_of_with_id (id : string) (data : Record) :
  record_of id data (with_id id data).
Proof.
  split.
  - rewrite with_id_lookup. destruct (data !! "id"); [done|].
    by rewrite decide_True.
  - intros k Hk. rewrite with_id_lookup. destruct (data !! k); [done|].
    by rewrite decide_False.
Qed.

(** X22: a collection read that returns gives the rows of the last
    snapshot the client returned for the hook's query in that run, only
    log messages coming after it: one record per document, in the
    snapshot's order, each with the document's fields and an id (the
    data's own id field when it has one, the document's id otherwise);
    with withMeta the result also has the number of records as size, is
    empty exactly when there is no record, and has the snapshot's first
    and last documents. *)
Theorem useCollection_items {St : Type} (be : Backend St) (fs : Constructors)
    (cfg : UseFirebaseConfig)
    (c : string) (options : option CollectionOptions)
    (behavior : option CollectionBehavior) (w : World St) (d : CollectionData) :
  fst (useCollection_queryFn be fs cfg c options behavior w) = inr d ->
  exists l src snap dbg,
    events_since w (snd (useCollection_queryFn be fs cfg c options behavior w))
    = l ++ EGetDocs src (collection_query c options) (inr snap) :: dbg
    /\ Forall is_log dbg
    /\ Forall2 (fun doc item => record_of (qd_id doc) (qd_data doc) item)
         (docs snap) (items_of d)
    /\ match d with
       | Items _ => default false (behavior ≫= col_withMeta) = false
       | WithMeta m =>
           default false (behavior ≫= col_withMeta) = true
           /\ meta_size m = length (meta_items m)
           /\ (meta_empty m = true <-> meta_items m = [])
           /\ meta_firstDoc m = head (docs snap)
           /\ meta_lastDoc m = last (docs snap)
       end.
Proof.
  unfold useCollection_queryFn.
  rewrite (bind_run _ _ _ _ _ (performanceNow_run be w)).
  set (w1 := {| store := snd (be_performanceNow be (store w)); trace := trace w |}).
  destruct (buildConstraints fs options) as [e|constraints] eqn:Ebuild.
  { by rewrite (bind_fail _ _ w1 w1 e). }
  rewrite (bind_run _ _ w1 w1 constraints) by done.
  apply buildConstraints_returns in Ebuild as ->.
  change {| q_collection := c; q_constraints := constraints_of options |}
    with (collection_query c options).
  destruct (getDocsByMode_last be (collection_query c options)
              (default DefaultMode (behavior ≫= col_preferCache)) w1)
    as (l & src & Htr).
  destruct (getDocsByMode be (collection_query c options)
              (default DefaultMode (behavior ≫= col_preferCache)) w1)
    as [[e|snap] w2] eqn:Eread.
  { rewrite (bind_fail _ _ _ _ _ Eread). discriminate. }
  rewrite (bind_run _ _ _ _ _ Eread).
  rewrite (bind_run _ _ _ _ _ (performanceNow_run be w2)).
  rewrite (bind_run _ _ _ _ tt (when_log_run _ _ _ _ _ _)).
  cbn [fst snd store trace] in *.
  intros Hd. exists l, src, snap. eexists. split; [|split; [|split]].
  - match goal with
    | |- events_since w (snd (?m ?w')) = _ =>
        replace (snd (m w')) with w' by (by destruct (default false _))
    end.
    apply events_since_app. cbn [trace]. rewrite Htr.
    change (trace w1) with (trace w). rewrite <- !app_assoc. reflexivity.
  - apply Forall_is_log_logged.
  - assert (items_of d = convertQuerySnapshot snap) as ->.
    { destruct (default false (behavior ≫= col_withMeta));
        unfold ret in Hd; simpl in Hd; by injection Hd as <-. }
    unfold convertQuerySnapshot. apply Forall2_fmap_r, Forall_Forall2_diag.
    apply Forall_forall. intros doc _. apply record_of_with_id.
  - destruct (default false (behavior ≫= col_withMeta));
      unfold ret in Hd; simpl in Hd; injection Hd as <-; [|done].
    split; [done|]. cbn [meta_size meta_items meta_empty meta_firstDoc meta_lastDoc].
    unfold convertQuerySnapshot, qs_empty. rewrite length_map.
    repeat split; try done.
    + by destruct (docs snap).
    + by destruct (docs snap).
Qed.

Lemma useCollection_items_witness :
  exists l src snap dbg,
    events_since Demo.w0
      (snd (useCollection_queryFn (Demo.backend false) Firebase.constructors
              Demo.cfg "users" None
              (Some {| col_preferCache := Some CacheFirst; col_debug := None;
                       col_withMeta := Some true |}) Demo.w0))
    = l ++ EGetDocs src (collection_query "users" None) (inr snap) :: dbg
    /\ Forall2 (fun doc item => record_of (qd_id doc) (qd_data doc) item)
         (docs snap)
         [with_id "u1" {[ "name" := VStr "Ann" ]};
          with_id "u2" {[ "name" := VStr "Bo" ]}].
Proof.
  destruct (useCollection_items (Demo.backend false) Firebase.constructors
              Demo.cfg "users" None
              (Some {| col_preferCache := Some CacheFirst; col_debug := None;
                       col_withMeta := Some true |}) Demo.w0
              (WithMeta {| meta_items := convertQuerySnapshot Demo.users;
                           meta_firstDoc := head (docs Demo.users);
                           meta_lastDoc := last (docs Demo.users);
                           meta_size := 2; meta_empty := false |}) eq_refl)
    as (l & src & snap & dbg & H1 & _ & H2 & _).
  exists l, src, snap, dbg. split; [exact H1 | exact H2].
Defined.

(** X23: a document read with an id that returns gives what the last
    snapshot the client returned for the reference of that id holds, only
    log messages coming after it: null when the document does not exist,
    and otherwise the document's fields with an id (the data's own id
    field when it has one, the document's id otherwise). *)
Theorem useDocument_record {St : Type} (be : Backend St) (cfg : UseFirebaseConfig)
    (c id : string) (behavior : option QueryBehavior) (w : World St)
    (v : option Record) :
  falsy (Some id) = false ->
  fst (useDocument_queryFn be cfg c (Some id) behavior w) = inr v ->
  exists ref l src snap dbg,
    be_doc be c (VStr id) = inr ref
    /\ events_since w (snd (useDocument_queryFn be cfg c (Some id) behavior w))
       = l ++ EGetDoc src ref (inr snap) :: dbg
    /\ Forall is_log dbg
    /\ match snap_data snap with
       | None => v = None
       | Some data => exists item, v = Some item /\ record_of (snap_id snap) data item
       end.
Proof.
  intros Hid. unfold useDocument_queryFn.
  destruct id as [|a id']; [discriminate|]. set (id := String a id').
  rewrite (bind_run _ _ _ _ _ (performanceNow_run be w)).
  set (w1 := {| store := snd (be_performanceNow be (store w)); trace := trace w |}).
  destruct (be_doc be c (VStr id)) as [e|ref] eqn:Edoc.
  { erewrite bind_fail by (unfold doc, call; by rewrite Edoc). discriminate. }
  erewrite bind_run by (unfold doc, call; by rewrite Edoc).
  destruct (getDocByMode_last be ref
              (default DefaultMode (behavior ≫= preferCache)) w1)
    as (l & src & Htr).
  destruct (getDocByMode be ref (default DefaultMode (behavior ≫= preferCache)) w1)
    as [[e|snap] w2] eqn:Eread.
  { rewrite (bind_fail _ _ _ _ _ Eread). discriminate. }
  rewrite (bind_run _ _ _ _ _ Eread).
  rewrite (bind_run _ _ _ _ _ (performanceNow_run be w2)).
  rewrite (bind_run _ _ _ _ tt (when_log_run _ _ _ _ _ _)).
  cbn [fst snd store trace ret] in *.
  intros Hv. injection Hv as <-.
  exists ref, l, src, snap. eexists. split; [done|]. split; [|split].
  - apply events_since_app. cbn [trace]. rewrite Htr.
    change (trace w1) with (trace w). rewrite <- !app_assoc. reflexivity.
  - apply Forall_is_log_logged.
  - unfold convertDocSnapshot. destruct (snap_data snap) as [data|]; [|done].
    eexists. split; [done|]. apply record_of_with_id.
Qed.

Lemma useDocument_record_witness :
  exists ref l src snap dbg,
    be_doc (Demo.backend false) "todos" (VStr "t1") = inr ref
    /\ events_since Demo.w0
         (snd (useDocument_queryFn (Demo.backend false) Demo.cfg "todos" (Some "t1")
                 None Demo.w0))
       = l ++ EGetDoc src ref (inr snap) :: dbg
    /\ match snap_data snap with
       | None => False
       | Some data =>
           record_of (snap_id snap) data (with_id "t1" {[ "title" := VStr "Old title" ]})
       end.
Proof.
  destruct (useDocument_record (Demo.backend false) Demo.cfg "todos" "t1" None
              Demo.w0 (Some (with_id "t1" {[ "title" := VStr "Old title" ]}))
              eq_refl eq_refl)
    as (ref & l & src & snap & dbg & H1 & H2 & _ & H3).
  exists ref, l, src, snap, dbg. split; [exact H1|]. split; [exact H2|].
  destruct (snap_data snap) as [data|]; [|discriminate H3].
  destruct H3 as (item & Hitem & Hrec). injection Hitem as <-. exact Hrec.
Defined.

(** ** What a successful mutation invalidates *)










(** ** useCollectionFilters *)

Lemma drop_index_from_out {A} (i index : Z) (prev : list A) :
  (index < i \/ i + Z.of_nat (length prev) <= index)%Z ->
  drop_index_from i index prev = prev.
Proof.
  revert i. induction prev as [|x r IH]; intros i H; [done|].
  cbn [drop_index_from]. cbn [length] in H.
  destruct (Z.eqb_spec i index) as [->|Hne]; [lia|].
  f_equal. apply IH. lia.
Qed.

Lemma drop_index_from_in {A} (i index : Z) (prev : list A) :
  (i <= index < i + Z.of_nat (length prev))%Z ->
  drop_index_from i index prev
  = take (Z.to_nat (index - i)) prev ++ drop (S (Z.to_nat (index - i))) prev.
Proof.
  revert i. induction prev as [|x r IH]; intros i H; cbn [length] in H; [lia|].
  cbn [drop_index_from].
  destruct (Z.eqb_spec i index) as [->|Hne].
  - rewrite Z.sub_diag. cbn. apply drop_index_from_out. lia.
  - rewrite (IH (i + 1)%Z) by lia.
    replace (Z.to_nat (index - i)) with (S (Z.to_nat (index - (i + 1)))) by lia.
    reflexivity.
Qed.

(** X26: removeFilter removes the filter at the index and keeps the
    others in order; an index below zero or past the end changes nothing;
    removing at the old length right after addFilter gives the filters
    back. *)
Theorem removeFilter_laws {A : Type} (index : Z) (f : A) (prev : list A) :
  ((index < 0 \/ Z.of_nat (length prev) <= index)%Z -> removeFilter index prev = prev)
  /\ ((0 <= index < Z.of_nat (length prev))%Z ->
      removeFilter index prev
      = take (Z.to_nat index) prev ++ drop (S (Z.to_nat index)) prev
      /\ length (removeFilter index prev) = pred (length prev))
  /\ removeFilter (Z.of_nat (length prev)) (addFilter f prev) = prev.
Proof.
  unfold removeFilter, addFilter. split; [|split].
  - intros H. apply drop_index_from_out. lia.
  - intros H. rewrite drop_index_from_in by lia. rewrite Z.sub_0_r.
    split; [done|]. rewrite length_app, length_take, length_drop. lia.
  - rewrite drop_index_from_in by (rewrite length_app; cbn; lia).
    rewrite Z.sub_0_r, Nat2Z.id.
    rewrite take_app_length, drop_ge by (rewrite length_app; cbn; lia).
    apply app_nil_r.
Qed.

Lemma removeFilter_laws_witness :
  removeFilter 1 ["a"; "b"; "c"] = ["a"; "c"]
  /\ removeFilter 3 ["a"; "b"; "c"] = ["a"; "b"; "c"].
Proof.
  split.
  - apply (proj1 (proj1 (proj2 (removeFilter_laws 1 "x" ["a"; "b"; "c"]))
                    ltac:(cbn; lia))).
  - apply (proj1 (removeFilter_laws 3 "x" ["a"; "b"; "c"])). cbn. lia.
Defined.
